(** * Directory scaffolding scripts: a model and its properties

    The repository holds three scripts, [create_dirs.py],
    [create_structure.py] and [create_test_dirs.py].  Each walks a fixed
    list of relative paths, joins every entry to a fixed base path, calls
    [os.makedirs(full_path, exist_ok=True)], prints a progress line and
    ends with a summary line.  [create_structure.py] wraps the whole pass
    in [try ... except Exception] and calls [sys.exit].

    The scripts are embedded as computations in a state-and-exception
    monad over a world made of a directory tree and the text printed so
    far.  The [os] module is an interface ([OsModule]); the Windows flavour
    the scripts' constants are written for is given as an instance. *)

From Stdlib Require Import ZArith Ascii String.
From stdpp Require Import gmap strings list pretty.

Local Open Scope Z_scope.

(** ** The directory tree *)

(** A resolved path is the list of names the operating system walks, the
    innermost name first: [name :: parent].  The empty list is the root
    of the name space.  Names are opaque: [..] and links are outside the
    model. *)
Abbreviation path := (list string).

(** An entry is a plain file or a directory; a directory records whether
    the process may create entries in it. *)
Inductive node : Type :=
  | File
  | Dir (writable : bool).

#[global] Instance node_eq_dec : EqDecision node.
Proof. solve_decision. Defined.

Abbreviation FS := (gmap path node).

Definition exists_ (p : path) (t : FS) : bool :=
  match t !! p with Some _ => true | None => false end.

Definition isdir (p : path) (t : FS) : bool :=
  match t !! p with Some (Dir _) => true | _ => false end.

(** Every entry other than the root lives in a directory. *)
Definition parent_ok (t : FS) (p : path) : Prop :=
  match p with [] => True | _ :: head => isdir head t = true end.

Definition well_formed (t : FS) : Prop :=
  map_Forall (λ p _, parent_ok t p) t.

#[global] Instance parent_ok_dec t p : Decision (parent_ok t p).
Proof. destruct p; simpl; apply _. Defined.

#[global] Instance well_formed_dec t : Decision (well_formed t).
Proof. apply map_Forall_dec. intros p _. apply _. Defined.

(** ** Exceptions *)

Inductive OSErrorKind : Type :=
  | FileExistsError
  | FileNotFoundError
  | NotADirectoryError
  | PermissionError.

(** [OSError] is a subclass of [Exception]; [SystemExit] derives from
    [BaseException] only. *)
Inductive exn : Type :=
  | OSError (kind : OSErrorKind) (filename : path)
  | SystemExit (code : Z).

Definition is_Exception (e : exn) : bool :=
  match e with OSError _ _ => true | SystemExit _ => false end.

Definition is_OSError (e : exn) : bool :=
  match e with OSError _ _ => true | SystemExit _ => false end.

Definition is_FileExistsError (e : exn) : bool :=
  match e with OSError FileExistsError _ => true | _ => false end.

(** ** The monad of the scripts *)

(** A computation reads and updates a state and either returns a value or
    raises an exception; the state an exception leaves behind is kept. *)
Definition Eff (S A : Type) : Type := S → (exn + A) * S.

#[global] Instance Eff_ret S : MRet (Eff S) := λ A (a : A) s, (inr a, s).

#[global] Instance Eff_bind S : MBind (Eff S) := λ A B (f : A → Eff S B) (m : Eff S A) s,
  match m s with
  | (inr a, s') => f a s'
  | (inl e, s') => (inl e, s')
  end.

Definition raise {S A} (e : exn) : Eff S A := λ s, (inl e, s).

(** [try: body except <sel> as e: handler e]: the handler runs only for
    the exceptions the clause selects, any other propagates. *)
Definition try_except {S A} (body : Eff S A) (sel : exn → bool)
  (handler : exn → Eff S A) : Eff S A := λ s,
  match body s with
  | (inr a, s') => (inr a, s')
  | (inl e, s') => if sel e then handler e s' else (inl e, s')
  end.

(** The world of a script: the directory tree and what it has printed,
    one element per [print] call, oldest first. *)
Record World : Type := mkWorld {
  fs : FS;
  stdout : list string
}.

Abbreviation M := (Eff World).

(** A call into the [os] module touches the directory tree only. *)
Definition call_os {A} (m : Eff FS A) : M A := λ w,
  let '(r, t') := m (fs w) in (r, mkWorld t' (stdout w)).

Definition print (s : string) : M unit := λ w,
  (inr tt, mkWorld (fs w) (stdout w ++ [s])).

Definition sys_exit (code : Z) : M unit := raise (SystemExit code).

Fixpoint for_each {A} (l : list A) (body : A → M unit) : M unit :=
  match l with
  | [] => mret tt
  | x :: l' => body x ;; for_each l' body
  end.

(** ** [os.mkdir] and [os.makedirs] *)

(** [os.mkdir(name)]: the parent is resolved first, then the name must be
    free, then the parent must be writable.  The root has no parent in
    which it could be created. *)
Definition mkdir (name : path) : Eff FS unit := λ t,
  match name with
  | [] =>
      if exists_ [] t then (inl (OSError FileExistsError name), t)
      else (inl (OSError FileNotFoundError name), t)
  | _ :: head =>
      match t !! head with
      | None => (inl (OSError FileNotFoundError name), t)
      | Some File => (inl (OSError NotADirectoryError name), t)
      | Some (Dir wr) =>
          if exists_ name t then (inl (OSError FileExistsError name), t)
          else if wr then (inr tt, <[name := Dir true]> t)
          else (inl (OSError PermissionError name), t)
      end
  end.

(** The tail of [os.makedirs]:
<<
    try:
        mkdir(name, mode)
    except OSError:
        if not exist_ok or not path.isdir(name):
            raise
>> *)
Definition mkdir_exist_ok (exist_ok : bool) (name : path) : Eff FS unit :=
  try_except (mkdir name) is_OSError
    (λ e t, if negb exist_ok || negb (isdir name t)
            then (inl e, t) else (inr tt, t)).

(** [os.makedirs(name, exist_ok=exist_ok)] on the entry that the path
    string names: [path.split] peels the innermost name off, and every
    ancestor up to the root of the name space is a [head] (the string
    corner cases of [path.split], an empty or dotted name, are outside the
    model).
<<
    head, tail = path.split(name)
    if head and tail and not path.exists(head):
        try:
            makedirs(head, exist_ok=exist_ok)
        except FileExistsError:
            pass
>> *)
Fixpoint makedirs (name : path) (exist_ok : bool) : Eff FS unit :=
  match name with
  | [] => mkdir_exist_ok exist_ok name
  | _ :: head =>
      (λ t, if negb (exists_ head t)
            then try_except (makedirs head exist_ok) is_FileExistsError
                   (λ _, mret tt) t
            else (inr tt, t)) ;;
      mkdir_exist_ok exist_ok name
  end.

(** ** Outcomes of the primitives *)

(** What a call of [mkdir] can do. *)
Inductive mkdir_spec (name : path) (t : FS) : (exn + unit) * FS → Prop :=
  | mkdir_created x head :
      name = x :: head → t !! head = Some (Dir true) → t !! name = None →
      mkdir_spec name t (inr tt, <[name := Dir true]> t)
  | mkdir_failed k :
      (k = FileExistsError → exists_ name t = true) →
      mkdir_spec name t (inl (OSError k name), t).

(** What the guarded [mkdir] at the end of [makedirs] can do. *)
Inductive mkdir_exist_ok_spec (name : path) (t : FS) : (exn + unit) * FS → Prop :=
  | meo_created x head :
      name = x :: head → t !! head = Some (Dir true) → t !! name = None →
      mkdir_exist_ok_spec name t (inr tt, <[name := Dir true]> t)
  | meo_present :
      isdir name t = true →
      mkdir_exist_ok_spec name t (inr tt, t)
  | meo_failed k :
      isdir name t = false →
      (k = FileExistsError → exists_ name t = true) →
      mkdir_exist_ok_spec name t (inl (OSError k name), t).

(** [name] is a directory and the entry above it is there. *)
Definition settled (name : path) (t : FS) : bool :=
  isdir name t && match name with [] => true | _ :: head => exists_ head t end.

(** The outcome of a [makedirs] call: nothing is removed or altered, a
    well-formed tree stays well formed, only ancestors of [name] (and
    [name]) are new, and [name] is a directory once the call returns. *)
Definition makedirs_post (name : path) (t : FS) (res : (exn + unit) * FS) : Prop :=
  let '(r, t') := res in
  t ⊆ t' ∧
  (well_formed t → well_formed t') ∧
  (∀ q n, t' !! q = Some n → t !! q = Some n ∨ (n = Dir true ∧ q `suffix_of` name)) ∧
  match r with
  | inr _ => settled name t' = true
  | inl e => is_OSError e = true ∧ t' !! name = t !! name ∧
             (is_FileExistsError e = true → exists_ name t = true)
  end.

(** ** The [os] interface the scripts use *)

Class OsModule : Type := {
  path_join : string → string → string;   (* os.path.join *)
  resolve : string → path;                (* the entry a path string names *)
  strerror : exn → string                 (* str(e) *)
}.

(** ** The three scripts *)

Definition newline : string := String "010"%char "".

Section Scripts.
Context {os : OsModule}.

(** The loop the three scripts share:
<<
  for directory in directories:
      full_path = os.path.join(base_path, directory)
      os.makedirs(full_path, exist_ok=True)
      print(f'Created: {full_path}')
>> *)
Definition loop_body (base_path directory : string) : M unit :=
  let full_path := path_join base_path directory in
  call_os (makedirs (resolve full_path) true) ;;
  print ("Created: " +:+ full_path).

Definition create_loop (base_path : string) (directories : list string)
  : M unit :=
  for_each directories (loop_body base_path).

(** [create_dirs.py] *)
Definition create_dirs_main (base_path : string) (directories : list string)
  : M unit :=
  create_loop base_path directories ;;
  print (newline +:+ "Directory structure created successfully!").

(** [create_structure.py] *)
Definition create_structure_main (base_path : string)
  (directories : list string) : M unit :=
  try_except
    (create_loop base_path directories ;;
     print (newline +:+ "Directory structure created successfully!") ;;
     sys_exit 0)
    is_Exception
    (λ e, print ("Error: " +:+ strerror e) ;; sys_exit 1).

(** [create_test_dirs.py] *)
Definition create_test_dirs_main (base_path : string)
  (test_directories : list string) : M unit :=
  create_loop base_path test_directories ;;
  print (newline +:+ "Test subdirectories created!").
End Scripts.

(** The progress line and the entry of one element of the list. *)
Definition created_line `{OsModule} (base_path directory : string) : string :=
  "Created: " +:+ path_join base_path directory.

Definition target `{OsModule} (base_path directory : string) : path :=
  resolve (path_join base_path directory).

(** The constants of the scripts. *)
Definition base_path : string := "C:\Users\anupa\copilot-hackathon".

Definition directories : list string := [
  "src\main\java\com\hackathon\app";
  "src\main\java\com\hackathon\app\controller";
  "src\main\java\com\hackathon\app\service";
  "src\main\java\com\hackathon\app\repository";
  "src\main\java\com\hackathon\app\entity";
  "src\main\java\com\hackathon\app\dto";
  "src\main\java\com\hackathon\app\security";
  "src\main\java\com\hackathon\app\exception";
  "src\main\resources";
  "src\test\java\com\hackathon\app";
  ".github\workflows"
].

Definition test_directories : list string := [
  "src\test\java\com\hackathon\app\controller";
  "src\test\java\com\hackathon\app\service";
  "src\test\java\com\hackathon\app\repository"
].

(** ** Running a script as a process *)

(** How the interpreter ends: the module body ran to its end, a
    [SystemExit] reached the top, or another exception did and the
    interpreter printed its traceback. *)
Inductive termination : Type :=
  | FellThrough
  | Exited (code : Z)
  | Traceback (e : exn).

Definition exit_status (t : termination) : Z :=
  match t with
  | FellThrough => 0
  | Exited code => code
  | Traceback _ => 1
  end.

Record Result : Type := mkResult {
  final_fs : FS;
  output : list string;
  ending : termination
}.

Definition run (script : M unit) (t : FS) : Result :=
  match script (mkWorld t []) with
  | (inr _, w) => mkResult (fs w) (stdout w) FellThrough
  | (inl (SystemExit code), w) => mkResult (fs w) (stdout w) (Exited code)
  | (inl e, w) => mkResult (fs w) (stdout w) (Traceback e)
  end.

(** The three variants as the repository ships them. *)
Inductive variant : Type := CreateDirs | CreateStructure | CreateTestDirs.

Definition variants : list variant := [CreateDirs; CreateStructure; CreateTestDirs].

Definition main `{OsModule} (v : variant) : string → list string → M unit :=
  match v with
  | CreateDirs => create_dirs_main
  | CreateStructure => create_structure_main
  | CreateTestDirs => create_test_dirs_main
  end.

Definition shipped_list (v : variant) : list string :=
  match v with
  | CreateDirs | CreateStructure => directories
  | CreateTestDirs => test_directories
  end.

(** The last line a variant prints when its loop completes, and the way
    it then ends. *)
Definition summary (v : variant) : string :=
  match v with
  | CreateDirs | CreateStructure =>
      newline +:+ "Directory structure created successfully!"
  | CreateTestDirs => newline +:+ "Test subdirectories created!"
  end.

Definition success_ending (v : variant) : termination :=
  match v with
  | CreateStructure => Exited 0
  | CreateDirs | CreateTestDirs => FellThrough
  end.

(** What a variant adds to the output, and how it ends, when its loop
    raises [e]. *)
Definition failure_report `{OsModule} (v : variant) (e : exn) : list string :=
  match v with
  | CreateStructure => ["Error: " +:+ strerror e]
  | CreateDirs | CreateTestDirs => []
  end.

Definition failure_ending (v : variant) (e : exn) : termination :=
  match v with
  | CreateStructure => Exited 1
  | CreateDirs | CreateTestDirs => Traceback e
  end.

Definition succeeded (r : Result) : bool :=
  bool_decide (exit_status (ending r) = 0).

Definition script `{OsModule} (v : variant) : M unit :=
  main v base_path (shipped_list v).

(** What a process is started with. *)
Record Process : Type := mkProcess {
  argv : list string;
  environ : list (string * string);
  cwd : path
}.

(** ** The Windows flavour of the [os] interface

    Drive letters are handled, UNC shares and the folding of letter case
    in names are not.  The root of the name space holds the drives. *)
Module Nt.

Definition is_sep (c : ascii) : bool :=
  bool_decide (c = "\"%char) || bool_decide (c = "/"%char).

(** [ntpath.splitdrive] for drive letters. *)
Definition splitdrive (p : string) : string * string :=
  match p with
  | String d (String ":" rest) => (String d (String ":" ""), rest)
  | _ => ("", p)
  end.

Definition lower_char (c : ascii) : ascii :=
  let n := Ascii.nat_of_ascii c in
  if (Nat.leb 65 n && Nat.leb n 90)%bool then Ascii.ascii_of_nat (n + 32) else c.

Fixpoint lower (s : string) : string :=
  match s with
  | EmptyString => EmptyString
  | String c s' => String (lower_char c) (lower s')
  end.

Definition nonempty (s : string) : bool :=
  match s with EmptyString => false | _ => true end.

Definition starts_with_sep (s : string) : bool :=
  match s with String c _ => is_sep c | EmptyString => false end.

Fixpoint ends_with_sep (s : string) : bool :=
  match s with
  | EmptyString => false
  | String c EmptyString => is_sep c
  | String _ s' => ends_with_sep s'
  end.

(** [ntpath.join] with one component to append. *)
Definition join (path p : string) : string :=
  let '(result_drive, result_path) := splitdrive path in
  let '(p_drive, p_path) := splitdrive p in
  if starts_with_sep p_path then
    (* the second path is absolute *)
    (if nonempty p_drive || negb (nonempty result_drive)
     then p_drive else result_drive) +:+ p_path
  else if nonempty p_drive && negb (String.eqb p_drive result_drive)
          && negb (String.eqb (lower p_drive) (lower result_drive)) then
    (* different drives: the first path is ignored *)
    p_drive +:+ p_path
  else
    let result_drive :=
      if nonempty p_drive && negb (String.eqb p_drive result_drive)
      then p_drive else result_drive in
    let result_path :=
      if nonempty result_path && negb (ends_with_sep result_path)
      then result_path +:+ "\" else result_path in
    result_drive +:+ result_path +:+ p_path.

(** The names between separators, outermost first; empty names (doubled
    or trailing separators) do not count. *)
Fixpoint components_from (cur s : string) : list string :=
  match s with
  | EmptyString => if nonempty cur then [cur] else []
  | String c s' =>
      if is_sep c
      then (if nonempty cur then cur :: components_from "" s'
            else components_from "" s')
      else components_from (cur +:+ String c "") s'
  end.

Definition components (s : string) : list string := components_from "" s.

Definition drive_of (cwd : path) : string := default "" (last cwd).

(** The entry a path string names for a process whose current directory
    is [cwd]: a rooted path starts at its drive (the current one when it
    names none), any other continues from the current directory (from the
    root of the drive when it names another drive). *)
Definition resolve_from (cwd : path) (s : string) : path :=
  let '(drive, rest) := splitdrive s in
  let names := rev (components rest) in
  if starts_with_sep rest then
    names ++ [if nonempty drive then drive else drive_of cwd]
  else if negb (nonempty drive)
          || String.eqb (lower drive) (lower (drive_of cwd)) then
    names ++ cwd
  else names ++ [drive].

Fixpoint render (p : path) : string :=
  match p with
  | [] => ""
  | [x] => x +:+ "\"
  | x :: parent => render parent +:+ (if ends_with_sep (render parent) then "" else "\") +:+ x
  end.

Definition kind_message (k : OSErrorKind) : string :=
  match k with
  | FileExistsError =>
      "[WinError 183] Cannot create a file when that file already exists"
  | FileNotFoundError => "[WinError 3] The system cannot find the path specified"
  | NotADirectoryError => "[WinError 267] The directory name is invalid"
  | PermissionError => "[WinError 5] Access is denied"
  end.

(** [repr] of a file name: quoted, each backslash doubled. *)
Fixpoint escape (s : string) : string :=
  match s with
  | EmptyString => EmptyString
  | String c s' =>
      if bool_decide (c = "\"%char) then String c (String c (escape s'))
      else String c (escape s')
  end.

Definition repr (s : string) : string := "'" +:+ escape s +:+ "'".

(** [str(e)]; the file name of an [OSError] is shown in resolved form. *)
Definition str (e : exn) : string :=
  match e with
  | OSError k p => kind_message k +:+ ": " +:+ repr (render p)
  | SystemExit code => pretty code
  end.

(** The interface as a process sees it: only its current directory
    matters, and only to name resolution. *)
Definition os (p : Process) : OsModule :=
  {| path_join := join; resolve := resolve_from (cwd p); strerror := str |}.

Definition shell : Process :=
  {| argv := ["create_dirs.py"]; environ := [("USERNAME", "anupa")];
     cwd := ["anupa"; "Users"; "C:"] |}.

(** A fresh machine: the drive [C:] and nothing on it. *)
Definition fresh : FS := <[ ["C:"] := Dir true ]> (<[ [] := Dir false ]> ∅).

(** A project directory on that drive, and the same with a plain file
    where the scripts would put a directory. *)
Definition project : FS := <[ ["proj"; "C:"] := Dir true ]> fresh.

Definition blocked : FS := <[ ["a"; "proj"; "C:"] := File ]> project.

End Nt.

(** ** Observations on a run *)

(** The run did not end in a traceback. *)
Definition caught (e : termination) : bool :=
  match e with Traceback _ => false | _ => true end.

(** The run ended through [sys.exit]. *)
Definition explicit_status (e : termination) : bool :=
  match e with Exited _ => true | _ => false end.

Definition is_error_line (s : string) : bool := String.prefix "Error: " s.

(** The output holds a progress line for every element of the list, in
    order, before anything else. *)
Definition one_line_per_path `{OsModule}
    (v : variant) (B : string) (L : list string) (t : FS) : Prop :=
  ∃ rest, output (run (main v B L) t) = map (created_line B) L ++ rest.

(** With an empty list, a base path that is absent gets created. *)
Definition base_created_on_empty_list `{OsModule}
    (v : variant) (B : string) (t : FS) : Prop :=
  exists_ (resolve B) t = false →
  isdir (resolve B) (final_fs (run (main v B []) t)) = true.

(** Two variants end through [sys.exit], one by running off its end. *)
Definition two_explicit_one_implicit `{OsModule}
    (B : string) (L : list string) (t : FS) : Prop :=
  length (List.filter (λ v, explicit_status (ending (run (main v B L) t))) variants)
    = 2%nat ∧
  length (List.filter
            (λ v, negb (explicit_status (ending (run (main v B L) t)))) variants)
    = 1%nat.


(** ** What decides the outcome of a run *)

(** Walking up from [p]: the first entry that is there is a directory,
    and it is writable when something below it is missing. *)
Fixpoint creatable (p : path) (t : FS) : bool :=
  match p with
  | [] => isdir [] t
  | _ :: head =>
      match t !! p with
      | Some (Dir _) => true
      | Some File => false
      | None =>
          match t !! head with
          | Some (Dir wr) => wr
          | Some File => false
          | None => creatable head t
          end
      end
  end.

(** [t'] is [t] with more directories, each made writable inside a
    writable directory. *)
Definition grows (t t' : FS) : Prop :=
  t ⊆ t' ∧
  ∀ q n, t !! q = None → t' !! q = Some n →
    n = Dir true ∧ ∃ x h, q = x :: h ∧ t' !! h = Some (Dir true).

(** * Properties *)

(** ** [mkdir] *)

Lemma isdir_exists (p : path) (t : FS) : isdir p t = true → exists_ p t = true.
Proof. unfold isdir, exists_. by destruct (t !! p). Qed.

Lemma isdir_lookup (p : path) (t : FS) :
  isdir p t = true ↔ ∃ wr, t !! p = Some (Dir wr).
Proof.
  unfold isdir. split.
  - destruct (t !! p) as [[|wr]|]; try done. by exists wr.
  - by intros [wr ->].
Qed.

Lemma exists_lookup (p : path) (t : FS) : exists_ p t = false ↔ t !! p = None.
Proof. unfold exists_. by destruct (t !! p). Qed.

Lemma isdir_mono (p : path) (t t' : FS) :
  t ⊆ t' → isdir p t = true → isdir p t' = true.
Proof.
  intros Hsub [wr Hwr]%isdir_lookup. apply isdir_lookup. exists wr.
  by eapply lookup_weaken.
Qed.

Lemma well_formed_cons (x : string) (p : path) (n : node) (t : FS) :
  well_formed t → t !! (x :: p) = Some n → isdir p t = true.
Proof. intros Hwf Hx. exact (Hwf _ _ Hx). Qed.

Lemma wf_insert (x : string) (head : path) (t : FS) :
  well_formed t → isdir head t = true → t !! (x :: head) = None →
  well_formed (<[x :: head := Dir true]> t).
Proof.
  intros Hwf Hhead Hfree [|y p] n Hy; [done|]. simpl.
  assert (Hsub : t ⊆ <[x :: head := Dir true]> t) by by apply insert_subseteq.
  destruct (decide (x :: head = y :: p)) as [Heq|Hne].
  - inversion Heq; subst. by eapply isdir_mono.
  - rewrite lookup_insert_ne in Hy by done.
    eapply isdir_mono; [done|]. by eapply well_formed_cons.
Qed.


Lemma mkdir_cases name t : mkdir_spec name t (mkdir name t).
Proof.
  unfold mkdir. destruct name as [|x head].
  - destruct (exists_ [] t) eqn:E; by constructor.
  - destruct (t !! head) as [[|wr]|] eqn:Hh; [by constructor| |by constructor].
    destruct (exists_ (x :: head) t) eqn:E; [by constructor|].
    destruct wr; [|by constructor].
    eapply mkdir_created; eauto. by apply exists_lookup.
Qed.


Lemma mkdir_exist_ok_cases name t :
  mkdir_exist_ok_spec name t (mkdir_exist_ok true name t).
Proof.
  unfold mkdir_exist_ok, try_except.
  destruct (mkdir_cases name t) as [x head -> Hh Hn | k Hk]; simpl.
  - by eapply meo_created.
  - destruct (isdir name t) eqn:E; simpl; by constructor.
Qed.

(** ** [makedirs] *)

Lemma makedirs_cons x head exist_ok t :
  makedirs (x :: head) exist_ok t =
  if exists_ head t then mkdir_exist_ok exist_ok (x :: head) t
  else match makedirs head exist_ok t with
       | (inr _, t1) => mkdir_exist_ok exist_ok (x :: head) t1
       | (inl e, t1) =>
           if is_FileExistsError e then mkdir_exist_ok exist_ok (x :: head) t1
           else (inl e, t1)
       end.
Proof.
  simpl. unfold mbind, Eff_bind, try_except.
  destruct (exists_ head t); simpl; [done|].
  destruct (makedirs head exist_ok t) as [[e|[]] t1]; [|done].
  by destruct (is_FileExistsError e).
Qed.

Lemma untouched_above (x : string) (head : path) (t t1 : FS) :
  t ⊆ t1 →
  (∀ q n, t1 !! q = Some n → t !! q = Some n ∨ (n = Dir true ∧ q `suffix_of` head)) →
  t1 !! (x :: head) = t !! (x :: head).
Proof.
  intros Hsub Hnew. destruct (t1 !! (x :: head)) as [n|] eqn:E.
  - destruct (Hnew _ _ E) as [->|[_ Hs]]; [done|].
    by apply suffix_cons_not in Hs.
  - destruct (t !! (x :: head)) as [n|] eqn:E'; [|done].
    eapply lookup_weaken in E'; [|done]. congruence.
Qed.


Lemma makedirs_inv name : ∀ t, makedirs_post name t (makedirs name true t).
Proof.
  assert (Hlast : ∀ name t0 t,
    t0 ⊆ t →
    (well_formed t0 → well_formed t) →
    (∀ q n, t !! q = Some n → t0 !! q = Some n ∨ (n = Dir true ∧ q `suffix_of` name)) →
    t !! name = t0 !! name →
    match name with [] => true | _ :: head => exists_ head t end = true →
    makedirs_post name t0 (mkdir_exist_ok true name t)).
  { intros nm t0 t Hsub Hwf Hnew Hsame Hup.
    destruct (mkdir_exist_ok_cases nm t) as [x head -> Hh Hn | Hd | k Hd Hk]; simpl.
    - assert (t ⊆ <[x :: head := Dir true]> t) by by apply insert_subseteq.
      split_and!.
      + by etrans.
      + intros. apply wf_insert; auto. apply isdir_lookup; eauto.
      + intros q n Hq. destruct (decide (x :: head = q)) as [<-|Hne].
        * rewrite lookup_insert_eq in Hq. right. by inversion Hq.
        * rewrite lookup_insert_ne in Hq by done. auto.
      + apply andb_true_intro. split.
        * apply isdir_lookup. exists true. by rewrite lookup_insert_eq.
        * apply isdir_exists. eapply isdir_mono; [done|]. apply isdir_lookup; eauto.
    - split_and!; try done. by apply andb_true_intro.
    - split_and!; try done.
      intros Hf. unfold exists_ in *. rewrite <- Hsame.
      destruct k; try done. by apply Hk. }
  induction name as [|x head IH]; intros t.
  - simpl. apply Hlast; auto.
  - rewrite makedirs_cons. destruct (exists_ head t) eqn:Eh.
    + apply Hlast; auto.
    + specialize (IH t). destruct (makedirs head true t) as [[e|[]] t1].
      * destruct IH as (Hsub & Hwf & Hnew & Hos & Hsame & Hfe).
        destruct (is_FileExistsError e) eqn:Efe; [rewrite Hfe in Eh; done|].
        simpl. split_and!; auto.
        -- intros q n Hq. destruct (Hnew _ _ Hq) as [|[? ?]]; auto.
           right. split; [done|]. by apply suffix_cons_r.
        -- by apply untouched_above.
        -- intros ?. congruence.
      * destruct IH as (Hsub & Hwf & Hnew & [Hd _]%andb_prop).
        apply Hlast; auto.
        -- intros q n Hq. destruct (Hnew _ _ Hq) as [|[? ?]]; auto.
           right. split; [done|]. by apply suffix_cons_r.
        -- by apply untouched_above.
        -- by apply isdir_exists.
Qed.

Lemma makedirs_settled name t :
  settled name t = true → makedirs name true t = (inr tt, t).
Proof.
  intros [Hd Hup]%andb_prop.
  assert (Hlast : mkdir_exist_ok true name t = (inr tt, t)).
  { destruct (mkdir_exist_ok_cases name t) as [x head -> Hh Hn | _ | k Hnd _].
    - apply isdir_lookup in Hd as [wr Hd]. congruence.
    - done.
    - congruence. }
  destruct name as [|x head]; [done|].
  rewrite makedirs_cons. by rewrite Hup.
Qed.

Lemma settled_mono (name : path) (t t' : FS) :
  t ⊆ t' → settled name t = true → settled name t' = true.
Proof.
  intros Hsub [Hd Hup]%andb_prop. apply andb_true_intro. split.
  - by eapply isdir_mono.
  - destruct name as [|x head]; [done|]. unfold exists_ in *.
    destruct (t !! head) as [n|] eqn:E; [|done].
    by rewrite (lookup_weaken _ _ _ _ E Hsub).
Qed.

Lemma well_formed_settled (name : path) (t : FS) :
  well_formed t → isdir name t = true → settled name t = true.
Proof.
  intros Hwf Hd. apply andb_true_intro. split; [done|].
  destruct name as [|x head]; [done|].
  apply isdir_lookup in Hd as [wr Hd]. apply isdir_exists.
  by eapply well_formed_cons.
Qed.

Lemma mkdir_exist_ok_failed name t e t' :
  mkdir_exist_ok true name t = (inl e, t') → t' = t.
Proof.
  destruct (mkdir_exist_ok_cases name t); intros Heq; by inversion Heq.
Qed.

(** A failed [makedirs] fails in the same way when it is called again on
    the tree it left. *)
Lemma makedirs_fail_again name : ∀ t e t',
  makedirs name true t = (inl e, t') → makedirs name true t' = (inl e, t').
Proof.
  induction name as [|x head IH]; intros t e t' H.
  - simpl in *. pose proof (mkdir_exist_ok_failed _ _ _ _ H) as ->. done.
  - rewrite makedirs_cons in H. rewrite makedirs_cons.
    destruct (exists_ head t) eqn:Eh.
    + pose proof (mkdir_exist_ok_failed _ _ _ _ H) as ->. by rewrite Eh.
    + pose proof (makedirs_inv head t) as Hpost.
      destruct (makedirs head true t) as [[e1|[]] t1] eqn:E1.
      * destruct Hpost as (Hsub & _ & Hnew & Hos & Hsame & Hfe).
        destruct (is_FileExistsError e1) eqn:Efe; [rewrite Hfe in Eh; done|].
        inversion H; subst.
        assert (exists_ head t' = false) as ->
          by (unfold exists_ in *; by rewrite Hsame).
        by rewrite (IH _ _ _ E1), Efe.
      * destruct Hpost as (_ & _ & _ & [Hd _]%andb_prop).
        pose proof (mkdir_exist_ok_failed _ _ _ _ H) as ->.
        by rewrite (isdir_exists _ _ Hd).
Qed.

(** A name taken by a plain file makes [makedirs] fail and leaves the
    tree as it is. *)
Lemma makedirs_on_file (name : path) (t : FS) :
  well_formed t → t !! name = Some File →
  makedirs name true t = (inl (OSError FileExistsError name), t).
Proof.
  intros Hwf Hf.
  assert (Hlast : mkdir_exist_ok true name t = (inl (OSError FileExistsError name), t)).
  { unfold mkdir_exist_ok, try_except, mkdir, exists_, isdir.
    destruct name as [|x head]; rewrite ?Hf; simpl; [done|].
    pose proof (well_formed_cons _ _ _ _ Hwf Hf) as [wr ->]%isdir_lookup.
    by rewrite Hf. }
  destruct name as [|x head]; [done|].
  rewrite makedirs_cons.
  by rewrite (isdir_exists _ _ (well_formed_cons _ _ _ _ Hwf Hf)).
Qed.

(** ** The loop *)

Section Loop.
Context {os : OsModule} (B : string).

Lemma loop_body_unfold d w :
  loop_body B d w =
  match makedirs (target B d) true (fs w) with
  | (inr _, t') => (inr tt, mkWorld t' (stdout w ++ [created_line B d]))
  | (inl e, t') => (inl e, mkWorld t' (stdout w))
  end.
Proof.
  unfold loop_body, call_os, mbind, Eff_bind, target, created_line, print.
  by destruct (makedirs _ true (fs w)) as [[e|[]] t'].
Qed.

Lemma create_loop_cons d L w :
  create_loop B (d :: L) w =
  match makedirs (target B d) true (fs w) with
  | (inr _, t') => create_loop B L (mkWorld t' (stdout w ++ [created_line B d]))
  | (inl e, t') => (inl e, mkWorld t' (stdout w))
  end.
Proof.
  unfold create_loop. simpl. unfold mbind at 1, Eff_bind at 1.
  rewrite loop_body_unfold.
  by destruct (makedirs _ true (fs w)) as [[e|[]] t'].
Qed.

(** The two ways the loop can end: every entry was handled, or the call
    for the entry at some index [i] raised after the [i] entries before
    it were handled. *)
Lemma create_loop_cases L : ∀ w,
  (∃ t', create_loop B L w
         = (inr tt, mkWorld t' (stdout w ++ map (created_line B) L))) ∨
  (∃ i d e t_i t',
     L !! i = Some d ∧
     create_loop B (take i L) w
       = (inr tt, mkWorld t_i (stdout w ++ map (created_line B) (take i L))) ∧
     makedirs (target B d) true t_i = (inl e, t') ∧
     create_loop B L w
       = (inl e, mkWorld t' (stdout w ++ map (created_line B) (take i L)))).
Proof.
  induction L as [|d L IH]; intros w.
  - left. exists (fs w). simpl. rewrite app_nil_r. by destruct w.
  - rewrite create_loop_cons.
    destruct (makedirs (target B d) true (fs w)) as [[e|[]] t1] eqn:E1.
    + right. exists 0%nat, d, e, (fs w), t1. simpl. rewrite app_nil_r.
      split_and!; try done. by destruct w.
    + destruct (IH (mkWorld t1 (stdout w ++ [created_line B d])))
        as [[t' Hok]|(i & d' & e & t_i & t' & Hi & Hpre & Hmk & Hres)];
        simpl in *; rewrite <- ?app_assoc in *; simpl in *.
      * left. by exists t'.
      * right. exists (S i), d', e, t_i, t'. simpl.
        rewrite create_loop_cons, E1. by split_and!.
Qed.

(** Whatever the loop does, it only adds directories, and only on the way
    to one of its targets. *)
Lemma create_loop_post L : ∀ w r w',
  create_loop B L w = (r, w') →
  fs w ⊆ fs w' ∧
  (well_formed (fs w) → well_formed (fs w')) ∧
  (∀ q n, fs w' !! q = Some n →
     fs w !! q = Some n ∨
     (n = Dir true ∧ ∃ d, d ∈ L ∧ q `suffix_of` target B d)) ∧
  match r with
  | inr _ => Forall (λ d, settled (target B d) (fs w') = true) L
  | inl e => is_OSError e = true
  end.
Proof.
  induction L as [|d L IH]; intros w r w' H.
  - inversion H; subst. split_and!; auto.
  - rewrite create_loop_cons in H.
    pose proof (makedirs_inv (target B d) (fs w)) as Hpost.
    destruct (makedirs (target B d) true (fs w)) as [[e|[]] t1].
    + inversion H; subst. simpl.
      destruct Hpost as (Hsub & Hwf & Hnew & Hos & _).
      split_and!; auto.
      intros q n Hq. destruct (Hnew _ _ Hq) as [|[? ?]]; auto.
      right. split; [done|]. exists d. split; [left|done].
    + destruct Hpost as (Hsub & Hwf & Hnew & Hset).
      destruct (IH _ _ _ H) as (Hsub' & Hwf' & Hnew' & Hr). simpl in *.
      split_and!; auto.
      * by etrans.
      * intros q n Hq. destruct (Hnew' _ _ Hq) as [Hq1|[? (d' & ? & ?)]].
        -- destruct (Hnew _ _ Hq1) as [|[? ?]]; auto.
           right. split; [done|]. exists d. split; [left|done].
        -- right. split; [done|]. exists d'. split; [by right|done].
      * destruct r as [e|[]]; [done|]. constructor; [|done].
        by eapply settled_mono.
Qed.

(** On a tree where every target is settled the loop changes nothing. *)
Lemma create_loop_settled L : ∀ t o,
  Forall (λ d, settled (target B d) t = true) L →
  create_loop B L (mkWorld t o) = (inr tt, mkWorld t (o ++ map (created_line B) L)).
Proof.
  induction L as [|d L IH]; intros t o HL.
  - simpl. by rewrite app_nil_r.
  - inversion HL; subst. rewrite create_loop_cons. simpl.
    rewrite makedirs_settled by done. rewrite IH by done.
    by rewrite <- app_assoc.
Qed.

Lemma create_loop_app L1 L2 w :
  create_loop B (L1 ++ L2) w =
  match create_loop B L1 w with
  | (inr _, w1) => create_loop B L2 w1
  | (inl e, w1) => (inl e, w1)
  end.
Proof.
  revert w. induction L1 as [|d L1 IH]; intros w; [done|].
  simpl. rewrite !create_loop_cons.
  by destruct (makedirs (target B d) true (fs w)) as [[e|[]] t1].
Qed.

(** The loop does not read what has been printed. *)
Lemma create_loop_frame L : ∀ t o r t' out,
  create_loop B L (mkWorld t []) = (r, mkWorld t' out) →
  create_loop B L (mkWorld t o) = (r, mkWorld t' (o ++ out)).
Proof.
  induction L as [|d L IH] using rev_ind; intros t o r t' out H.
  - inversion H; subst. simpl. by rewrite app_nil_r.
  - rewrite create_loop_app in *.
    destruct (create_loop B L (mkWorld t [])) as [[e|[]] [t1 o1]] eqn:E1.
    + inversion H; subst. by rewrite (IH _ o _ _ _ E1).
    + rewrite (IH _ o _ _ _ E1). rewrite create_loop_cons in *. simpl in *.
      destruct (makedirs (target B d) true t1) as [[e|[]] t2];
        inversion H; subst; [done|].
      simpl. by rewrite <- app_assoc.
Qed.

(** Running the loop again on the tree it left gives the same outcome, the
    same lines and the same tree. *)
Lemma create_loop_again L t r t' out :
  create_loop B L (mkWorld t []) = (r, mkWorld t' out) →
  create_loop B L (mkWorld t' []) = (r, mkWorld t' out).
Proof.
  intros H.
  destruct (create_loop_cases L (mkWorld t []))
    as [[t1 Hok]|(i & d & e & t_i & t1 & Hi & Hpre & Hmk & Hres)]; simpl in *.
  - rewrite Hok in H. inversion H; subst.
    apply create_loop_settled.
    by destruct (create_loop_post _ _ _ _ Hok) as (_ & _ & _ & ?).
  - rewrite Hres in H. inversion H; subst. clear H.
    rewrite <- (take_drop_middle _ _ _ Hi) at 1.
    rewrite create_loop_app.
    destruct (create_loop_post _ _ _ _ Hpre) as (_ & _ & _ & Hset). simpl in *.
    pose proof (makedirs_inv (target B d) t_i) as Hpost.
    rewrite Hmk in Hpost. destruct Hpost as [Hsub _].
    rewrite create_loop_settled.
    2:{ eapply Forall_impl; [exact Hset|]. intros d' ?. by eapply settled_mono. }
    rewrite create_loop_cons. simpl.
    by rewrite (makedirs_fail_again _ _ _ _ Hmk).
Qed.

End Loop.

(** ** The scripts as processes *)

Section Variants.
Context {os : OsModule}.

Lemma run_main_ok v B L t t' out :
  create_loop B L (mkWorld t []) = (inr tt, mkWorld t' out) →
  run (main v B L) t = mkResult t' (out ++ [summary v]) (success_ending v).
Proof.
  intros H. unfold run.
  destruct v; simpl;
    unfold create_dirs_main, create_structure_main, create_test_dirs_main,
      try_except, mbind, Eff_bind; by rewrite H.
Qed.

Lemma run_main_failed v B L t e t' out :
  create_loop B L (mkWorld t []) = (inl e, mkWorld t' out) →
  run (main v B L) t
  = mkResult t' (out ++ failure_report v e) (failure_ending v e).
Proof.
  intros H.
  assert (He : is_OSError e = true)
    by by destruct (create_loop_post _ _ _ _ _ H) as (_ & _ & _ & ?).
  destruct e as [k p|]; [|done]. unfold run.
  destruct v; simpl;
    unfold create_dirs_main, create_structure_main, create_test_dirs_main,
      try_except, mbind, Eff_bind; rewrite H; simpl; by rewrite ?app_nil_r.
Qed.

Lemma success_ending_status v : exit_status (success_ending v) = 0.
Proof. by destruct v. Qed.

Lemma failure_ending_status v e : exit_status (failure_ending v e) = 1.
Proof. by destruct v. Qed.

(** A run succeeds exactly when its loop returns. *)
Lemma succeeded_loop v B L t :
  succeeded (run (main v B L) t) = true ↔
  ∃ w', create_loop B L (mkWorld t []) = (inr tt, w').
Proof.
  destruct (create_loop B L (mkWorld t [])) as [[e|[]] [t' out]] eqn:E.
  - rewrite (run_main_failed _ _ _ _ _ _ _ E). unfold succeeded. simpl.
    rewrite failure_ending_status. split; [done|]. by intros [? ?].
  - rewrite (run_main_ok _ _ _ _ _ _ E). unfold succeeded. simpl.
    rewrite success_ending_status. split; [eauto|done].
Qed.

End Variants.

Lemma well_formed_ancestors (t : FS) (p q : path) :
  well_formed t → isdir p t = true → q `suffix_of` p → isdir q t = true.
Proof.
  intros Hwf Hp [k ->]. induction k as [|x k IH]; [done|].
  apply IH. apply isdir_lookup in Hp as [wr Hp]. by eapply well_formed_cons.
Qed.

(** * The statements of the specification *)

(** ** The shipped scripts on a fresh drive *)

Example join_shipped :
  Nt.join base_path ".github\workflows"
  = "C:\Users\anupa\copilot-hackathon\.github\workflows".
Proof. reflexivity. Qed.

Example resolve_shipped :
  Nt.resolve_from (cwd Nt.shell) (Nt.join base_path ".github\workflows")
  = ["workflows"; ".github"; "copilot-hackathon"; "anupa"; "Users"; "C:"].
Proof. reflexivity. Qed.

Example create_test_dirs_on_fresh_drive :
  let r := run (@script (Nt.os Nt.shell) CreateTestDirs) Nt.fresh in
  output r =
    ["Created: C:\Users\anupa\copilot-hackathon\src\test\java\com\hackathon\app\controller";
     "Created: C:\Users\anupa\copilot-hackathon\src\test\java\com\hackathon\app\service";
     "Created: C:\Users\anupa\copilot-hackathon\src\test\java\com\hackathon\app\repository";
     newline +:+ "Test subdirectories created!"] ∧
  ending r = FellThrough ∧
  size (final_fs r) = 14%nat.
Proof. vm_compute. done. Qed.

Example create_structure_on_fresh_drive :
  let r := run (@script (Nt.os Nt.shell) CreateStructure) Nt.fresh in
  length (output r) = 12%nat ∧ ending r = Exited 0 ∧ size (final_fs r) = 26%nat.
Proof. vm_compute. done. Qed.

Example create_structure_on_blocked_project :
  run (@main (Nt.os Nt.shell) CreateStructure "C:\proj" ["b"; "a"; "c"]) Nt.blocked
  = mkResult (<[ ["b"; "proj"; "C:"] := Dir true ]> Nt.blocked)
      ["Created: C:\proj\b";
       "Error: [WinError 183] Cannot create a file when that file already exists: 'C:\\proj\\a'"]
      (Exited 1).
Proof. vm_compute. reflexivity. Qed.

(** C1.  After a successful run of any variant on a base path [B] and a
    list [L], every joined path is a directory, and so is each of its
    ancestors; every entry that was there before the run is still there,
    unchanged; and whatever is new is a directory on the way to one of the
    joined paths. *)
Theorem C1_success_creates_every_path `{OsModule}
    (v : variant) (B : string) (L : list string) (t : FS) :
  well_formed t →
  succeeded (run (main v B L) t) = true →
  let t' := final_fs (run (main v B L) t) in
  Forall (λ d, isdir (target B d) t' = true) L ∧
  (∀ d q, d ∈ L → q `suffix_of` target B d → isdir q t' = true) ∧
  (∀ q n, t !! q = Some n → t' !! q = Some n) ∧
  (∀ q n, t' !! q = Some n →
     t !! q = Some n ∨ (n = Dir true ∧ ∃ d, d ∈ L ∧ q `suffix_of` target B d)).
Proof.
  intros Hwf [[t1 out] Hloop]%succeeded_loop.
  rewrite (run_main_ok _ _ _ _ _ _ Hloop). simpl.
  destruct (create_loop_post _ _ _ _ _ Hloop) as (Hsub & Hwf' & Hnew & Hset).
  simpl in *.
  assert (Hdirs : Forall (λ d, isdir (target B d) t1 = true) L).
  { eapply Forall_impl; [exact Hset|]. by intros d [? _]%andb_prop. }
  split_and!; auto.
  - intros d q Hd Hq. rewrite Forall_forall in Hdirs.
    eapply well_formed_ancestors; eauto.
  - intros q n Hq. by eapply lookup_weaken.
Qed.

Lemma C1_witness :
  well_formed Nt.fresh ∧
  succeeded (run (@main (Nt.os Nt.shell) CreateStructure "C:\proj" ["src\a"; "src\b"])
               Nt.fresh) = true ∧
  Forall (λ d, isdir (@target (Nt.os Nt.shell) "C:\proj" d)
                 (final_fs (run (@main (Nt.os Nt.shell) CreateStructure "C:\proj"
                                   ["src\a"; "src\b"]) Nt.fresh)) = true)
    ["src\a"; "src\b"].
Proof.
  assert (Hwf : well_formed Nt.fresh)
    by (apply (bool_decide_unpack _); vm_compute; reflexivity).
  assert (Hok : succeeded (run (@main (Nt.os Nt.shell) CreateStructure "C:\proj"
                                  ["src\a"; "src\b"]) Nt.fresh) = true)
    by (vm_compute; reflexivity).
  split; [exact Hwf|]. split; [exact Hok|].
  exact (proj1 (@C1_success_creates_every_path (Nt.os Nt.shell) CreateStructure
                  "C:\proj" ["src\a"; "src\b"] Nt.fresh Hwf Hok)).
Defined.

(** C2.  Running a variant again on the tree its first run left gives the
    same tree, and the same output and ending, whether the first run
    succeeded or stopped at a failing entry.  In the second run the call
    for every entry the first run handled returns without changing the
    tree, and a failing entry fails again without changing it. *)
Theorem C2_second_run_same_end_state `{OsModule}
    (v : variant) (B : string) (L : list string) (t : FS) :
  let once := run (main v B L) t in
  let t' := final_fs once in
  run (main v B L) t' = once ∧
  final_fs (run (main v B L) t') = t' ∧
  ((succeeded once = true ∧
    Forall (λ d, makedirs (target B d) true t' = (inr tt, t')) L) ∨
   (succeeded once = false ∧
    ∃ i d e, L !! i = Some d ∧
      Forall (λ d', makedirs (target B d') true t' = (inr tt, t')) (take i L) ∧
      makedirs (target B d) true t' = (inl e, t'))).
Proof.
  simpl.
  destruct (create_loop_cases B L (mkWorld t []))
    as [[t1 Hok]|(i & d & e & t_i & t1 & Hi & Hpre & Hmk & Hres)]; simpl in *.
  - pose proof (create_loop_again _ _ _ _ _ _ Hok) as Hagain.
    rewrite (run_main_ok _ _ _ _ _ _ Hok). simpl.
    rewrite (run_main_ok _ _ _ _ _ _ Hagain). split_and!; [done..|].
    left. split; [unfold succeeded; simpl; by rewrite success_ending_status|].
    destruct (create_loop_post _ _ _ _ _ Hok) as (_ & _ & _ & Hset).
    eapply Forall_impl; [exact Hset|]. intros d' ?. by apply makedirs_settled.
  - pose proof (create_loop_again _ _ _ _ _ _ Hres) as Hagain.
    rewrite (run_main_failed _ _ _ _ _ _ _ Hres). simpl.
    rewrite (run_main_failed _ _ _ _ _ _ _ Hagain). split_and!; [done..|].
    right. split; [unfold succeeded; simpl; by rewrite failure_ending_status|].
    exists i, d, e. split_and!; [done| |by eapply makedirs_fail_again].
    destruct (create_loop_post _ _ _ _ _ Hpre) as (_ & _ & _ & Hset).
    pose proof (makedirs_inv (target B d) t_i) as Hpost.
    rewrite Hmk in Hpost. destruct Hpost as [Hsub _]. simpl in *.
    eapply Forall_impl; [exact Hset|]. intros d' ?.
    apply makedirs_settled. by eapply settled_mono.
Qed.

(** C3.  When the loop raises, [create_structure.py] alone handles it: it
    prints [Error: <message>] after what was printed so far and exits
    with status 1.  [create_dirs.py] and [create_test_dirs.py] print
    nothing more and end in the traceback of that exception. *)
Theorem C3_one_variant_catches `{OsModule}
    (B : string) (L : list string) (t : FS) (e : exn) (w' : World) :
  create_loop B L (mkWorld t []) = (inl e, w') →
  run (main CreateStructure B L) t
    = mkResult (fs w') (stdout w' ++ ["Error: " +:+ strerror e]) (Exited 1) ∧
  run (main CreateDirs B L) t = mkResult (fs w') (stdout w') (Traceback e) ∧
  run (main CreateTestDirs B L) t = mkResult (fs w') (stdout w') (Traceback e) ∧
  List.filter (λ v, caught (ending (run (main v B L) t))) variants
    = [CreateStructure] ∧
  exit_status (Exited 1) ≠ 0.
Proof.
  intros Hloop. destruct w' as [t' out].
  pose proof (run_main_failed CreateStructure _ _ _ _ _ _ Hloop) as H1.
  pose proof (run_main_failed CreateDirs _ _ _ _ _ _ Hloop) as H2.
  pose proof (run_main_failed CreateTestDirs _ _ _ _ _ _ Hloop) as H3.
  simpl in *. rewrite app_nil_r in H2, H3.
  split_and!; try done.
  unfold variants. simpl. by rewrite H1, H2, H3.
Qed.

Lemma C3_witness :
  @create_loop (Nt.os Nt.shell) "C:\proj" ["b"; "a"; "c"] (mkWorld Nt.blocked [])
    = (inl (OSError FileExistsError ["a"; "proj"; "C:"]),
       mkWorld (<[ ["b"; "proj"; "C:"] := Dir true ]> Nt.blocked)
         ["Created: C:\proj\b"]) ∧
  ending (run (@main (Nt.os Nt.shell) CreateStructure "C:\proj" ["b"; "a"; "c"])
            Nt.blocked)
    = Exited 1 ∧
  ending (run (@main (Nt.os Nt.shell) CreateDirs "C:\proj" ["b"; "a"; "c"])
            Nt.blocked)
    = Traceback (OSError FileExistsError ["a"; "proj"; "C:"]).
Proof.
  assert (Hr : @create_loop (Nt.os Nt.shell) "C:\proj" ["b"; "a"; "c"]
                 (mkWorld Nt.blocked [])
               = (inl (OSError FileExistsError ["a"; "proj"; "C:"]),
                  mkWorld (<[ ["b"; "proj"; "C:"] := Dir true ]> Nt.blocked)
                    ["Created: C:\proj\b"]))
    by (vm_compute; reflexivity).
  pose proof (@C3_one_variant_catches (Nt.os Nt.shell) "C:\proj" ["b"; "a"; "c"]
                Nt.blocked _ _ Hr) as (H1 & H2 & _).
  split; [exact Hr|]. split.
  - exact (f_equal ending H1).
  - exact (f_equal ending H2).
Defined.

Lemma create_loop_stops_at_file `{OsModule}
    (B : string) (pre : list string) (d : string) (post : list string)
    (t t1 : FS) (out : list string) :
  well_formed t →
  t !! target B d = Some File →
  create_loop B pre (mkWorld t []) = (inr tt, mkWorld t1 out) →
  create_loop B (pre ++ d :: post) (mkWorld t [])
  = (inl (OSError FileExistsError (target B d)), mkWorld t1 out).
Proof.
  intros Hwf Hfile Hpre.
  destruct (create_loop_post _ _ _ _ _ Hpre) as (Hsub & Hwf1 & _). simpl in *.
  rewrite create_loop_app, Hpre, create_loop_cons. simpl.
  rewrite makedirs_on_file; [done|by apply Hwf1|by eapply lookup_weaken].
Qed.

(** C4.  When the joined path of an entry [d] of the list is taken by a
    plain file, the run fails with status 1 and the file is still a plain
    file after it.  When the entries before [d] are handled, that is when
    the run on them alone succeeds, processing stops at [d]: the call for
    [d] raises [FileExistsError] for that path, the final tree is the tree
    the earlier entries left, so their directories stay, the output is
    their progress lines followed by the variant's report ([Error: ...]
    and status 1 in [create_structure.py], the traceback of that exception
    in the other two), and nothing is done for the entries after [d].
    In general the run stops at index [i], which is the index of [d]
    exactly when the entries before [d] are handled and an earlier index
    otherwise; the entries before [i] are directories in the final tree
    and theirs are the progress lines printed. *)
Theorem C4_file_in_the_way `{OsModule}
    (v : variant) (B : string) (pre : list string) (d : string)
    (post : list string) (t : FS) :
  well_formed t →
  t !! target B d = Some File →
  let L := pre ++ d :: post in
  let res := run (main v B L) t in
  let before := run (main v B pre) t in
  let e_d := OSError FileExistsError (target B d) in
  (final_fs res !! target B d = Some File ∧
   succeeded res = false ∧
   exit_status (ending res) = 1) ∧
  (succeeded before = true →
     res = mkResult (final_fs before)
             (map (created_line B) pre
                ++ match v with
                   | CreateStructure => ["Error: " +:+ strerror e_d]
                   | CreateDirs | CreateTestDirs => []
                   end)
             match v with
             | CreateStructure => Exited 1
             | CreateDirs | CreateTestDirs => Traceback e_d
             end ∧
     Forall (λ d', isdir (target B d') (final_fs res) = true) pre) ∧
  (∃ i d_i e,
     (i ≤ length pre)%nat ∧ L !! i = Some d_i ∧ is_OSError e = true ∧
     (i = length pre ↔ succeeded before = true) ∧
     output res
       = map (created_line B) (take i L)
         ++ match v with
            | CreateStructure => ["Error: " +:+ strerror e]
            | CreateDirs | CreateTestDirs => []
            end ∧
     ending res
       = match v with
         | CreateStructure => Exited 1
         | CreateDirs | CreateTestDirs => Traceback e
         end ∧
     Forall (λ d', isdir (target B d') (final_fs res) = true) (take i L)).
Proof.
  intros Hwf Hfile L res before e_d. subst L res before e_d.
  destruct (create_loop_cases B pre (mkWorld t []))
    as [[t1 Hpre]|(i & d_i & e & t_i & t1 & Hi & Hprei & Hmk & Hpre)]; simpl in *.
  - (* the entries before [d] are handled *)
    pose proof (create_loop_stops_at_file B pre d post t t1 _ Hwf Hfile Hpre)
      as Hall.
    destruct (create_loop_post _ _ _ _ _ Hpre) as (Hsub & _ & _ & Hset).
    simpl in *.
    assert (Hdirs : Forall (λ d', isdir (target B d') t1 = true) pre).
    { eapply Forall_impl; [exact Hset|]. by intros d' [? _]%andb_prop. }
    rewrite (run_main_failed _ _ _ _ _ _ _ Hall).
    rewrite (run_main_ok _ _ _ _ _ _ Hpre). simpl.
    split_and!.
    + by eapply lookup_weaken.
    + unfold succeeded. simpl. by rewrite failure_ending_status.
    + apply failure_ending_status.
    + intros _. split; [by destruct v|done].
    + exists (length pre), d, (OSError FileExistsError (target B d)).
      rewrite take_app_length. split_and!; try done; try (by destruct v).
      by rewrite list_lookup_middle.
  - (* an earlier entry fails *)
    assert (Hlt : (i < length pre)%nat) by by eapply lookup_lt_Some.
    assert (Hall : create_loop B (pre ++ d :: post) (mkWorld t [])
                   = (inl e, mkWorld t1 (map (created_line B) (take i pre)))).
    { by rewrite create_loop_app, Hpre. }
    destruct (create_loop_post _ _ _ _ _ Hall) as (Hsub & _ & _ & Hos).
    destruct (create_loop_post _ _ _ _ _ Hprei) as (_ & _ & _ & Hset).
    pose proof (makedirs_inv (target B d_i) t_i) as Hpost.
    rewrite Hmk in Hpost. destruct Hpost as (Hsub' & _). simpl in *.
    rewrite (run_main_failed _ _ _ _ _ _ _ Hall).
    rewrite (run_main_failed _ _ _ _ _ _ _ Hpre). simpl.
    assert (Hnot : succeeded
                     (mkResult t1 (map (created_line B) (take i pre)
                                     ++ failure_report v e) (failure_ending v e))
                   = false).
    { unfold succeeded. simpl. by rewrite failure_ending_status. }
    split_and!.
    + by eapply lookup_weaken.
    + unfold succeeded. simpl. by rewrite failure_ending_status.
    + apply failure_ending_status.
    + intros Hyes. congruence.
    + exists i, d_i, e. rewrite take_app_le by lia. split_and!; try done.
      * lia.
      * by rewrite lookup_app_l.
      * split; [lia|]. intros Hyes. congruence.
      * eapply Forall_impl; [exact Hset|]. intros d' [? _]%andb_prop.
        by eapply isdir_mono.
Qed.

Lemma C4_witness :
  well_formed Nt.blocked ∧
  Nt.blocked !! @target (Nt.os Nt.shell) "C:\proj" "a" = Some File ∧
  succeeded (run (@main (Nt.os Nt.shell) CreateTestDirs "C:\proj" ["b"]) Nt.blocked)
    = true ∧
  run (@main (Nt.os Nt.shell) CreateTestDirs "C:\proj" (["b"] ++ "a" :: ["c"]))
    Nt.blocked
  = mkResult
      (final_fs (run (@main (Nt.os Nt.shell) CreateTestDirs "C:\proj" ["b"])
                   Nt.blocked))
      (map (@created_line (Nt.os Nt.shell) "C:\proj") ["b"] ++ [])
      (Traceback (OSError FileExistsError (@target (Nt.os Nt.shell) "C:\proj" "a"))) ∧
  Forall (λ d', isdir (@target (Nt.os Nt.shell) "C:\proj" d')
                  (final_fs (run (@main (Nt.os Nt.shell) CreateTestDirs "C:\proj"
                                    (["b"] ++ "a" :: ["c"])) Nt.blocked)) = true)
    ["b"] ∧
  final_fs (run (@main (Nt.os Nt.shell) CreateTestDirs "C:\proj" (["b"] ++ "a" :: ["c"]))
              Nt.blocked)
    !! @target (Nt.os Nt.shell) "C:\proj" "a" = Some File ∧
  succeeded (run (@main (Nt.os Nt.shell) CreateTestDirs "C:\proj"
                    (["b"] ++ "a" :: ["c"])) Nt.blocked) = false.
Proof.
  assert (Hwf : well_formed Nt.blocked)
    by (apply (bool_decide_unpack _); vm_compute; reflexivity).
  assert (Hfile : Nt.blocked !! @target (Nt.os Nt.shell) "C:\proj" "a" = Some File)
    by (vm_compute; reflexivity).
  assert (Hbefore : succeeded (run (@main (Nt.os Nt.shell) CreateTestDirs "C:\proj"
                                      ["b"]) Nt.blocked) = true)
    by (vm_compute; reflexivity).
  pose proof (@C4_file_in_the_way (Nt.os Nt.shell) CreateTestDirs "C:\proj"
                ["b"] "a" ["c"] Nt.blocked Hwf Hfile) as ((H1 & H2 & _) & Hstop & _).
  destruct (Hstop Hbefore) as [Hres Hdirs].
  split; [exact Hwf|]. split; [exact Hfile|]. split; [exact Hbefore|].
  split; [exact Hres|]. split; [exact Hdirs|]. split; [exact H1|exact H2].
Defined.

(** C5, as stated, fails: a run that stops at a failing entry prints no
    progress line for that entry or for the ones after it. *)
Lemma C5_counterexample :
  ¬ @one_line_per_path (Nt.os Nt.shell) CreateStructure "C:\proj"
      ["b"; "a"; "c"] Nt.blocked.
Proof.
  intros [rest Hout]. vm_compute in Hout. discriminate Hout.
Qed.

(** C5, amended.  A successful run prints one [Created: <joined path>]
    line per element of the list, in list order, and then its summary
    line.  A failing run prints that line for the elements before the
    failing one only: the loop returns on the first [i] elements and the
    [makedirs] call for the element at index [i] raises.  After those
    lines [create_structure.py] prints [Error: <message>] for that
    exception; the other two variants print nothing more to standard
    output and end in the traceback of that exception. *)
Theorem C5_output_of_a_run `{OsModule}
    (v : variant) (B : string) (L : list string) (t : FS) :
  let res := run (main v B L) t in
  (succeeded res = true ∧
   output res = map (λ d, "Created: " +:+ path_join B d) L ++ [summary v]) ∨
  (succeeded res = false ∧
   ∃ i d e t_i,
     L !! i = Some d ∧
     create_loop B (take i L) (mkWorld t [])
       = (inr tt,
          mkWorld t_i (map (λ d, "Created: " +:+ path_join B d) (take i L))) ∧
     makedirs (resolve (path_join B d)) true t_i = (inl e, final_fs res) ∧
     output res
       = map (λ d, "Created: " +:+ path_join B d) (take i L)
         ++ match v with
            | CreateStructure => ["Error: " +:+ strerror e]
            | CreateDirs | CreateTestDirs => []
            end ∧
     ending res
       = match v with
         | CreateStructure => Exited 1
         | CreateDirs | CreateTestDirs => Traceback e
         end).
Proof.
  simpl.
  destruct (create_loop_cases B L (mkWorld t []))
    as [[t1 Hok]|(i & d & e & t_i & t1 & Hi & Hpre & Hmk & Hres)]; simpl in *.
  - left. rewrite (run_main_ok _ _ _ _ _ _ Hok). simpl. split; [|done].
    unfold succeeded. simpl. by rewrite success_ending_status.
  - right. rewrite (run_main_failed _ _ _ _ _ _ _ Hres). simpl. split.
    + unfold succeeded. simpl. by rewrite failure_ending_status.
    + exists i, d, e, t_i. split_and!; try done; by destruct v.
Qed.

(** C6, as stated, fails: with an empty list no [makedirs] call is made,
    so a base path that is absent stays absent. *)
Lemma C6_counterexample :
  ¬ @base_created_on_empty_list (Nt.os Nt.shell) CreateDirs "C:\proj" Nt.fresh.
Proof.
  intros Hclaim. assert (Habsent : exists_ (@resolve (Nt.os Nt.shell) "C:\proj")
                                     Nt.fresh = false) by (vm_compute; reflexivity).
  apply Hclaim in Habsent. vm_compute in Habsent. discriminate Habsent.
Qed.

(** C6, amended.  With an empty list every variant succeeds, prints its
    summary line only and leaves the tree exactly as it was: nothing is
    created, the base path included. *)
Theorem C6_empty_list_changes_nothing `{OsModule}
    (v : variant) (B : string) (t : FS) :
  run (main v B []) t = mkResult t [summary v] (success_ending v) ∧
  succeeded (run (main v B []) t) = true ∧
  exists_ (resolve B) (final_fs (run (main v B []) t)) = exists_ (resolve B) t.
Proof.
  assert (Hrun : run (main v B []) t = mkResult t [summary v] (success_ending v))
    by by destruct v.
  rewrite Hrun. split_and!; [done| |done].
  unfold succeeded. simpl. by rewrite success_ending_status.
Qed.

(** C7, as stated, fails: of the three shipped scripts, run on a fresh
    drive where all succeed, one ends through [sys.exit] and two run off
    their end. *)
Lemma C7_counterexample :
  ¬ @two_explicit_one_implicit (Nt.os Nt.shell) "C:\proj" ["src\a"; "src\b"]
      Nt.fresh.
Proof.
  intros [Htwo _]. vm_compute in Htwo. discriminate Htwo.
Qed.

(** C7, amended.  On success [create_structure.py] alone ends through
    [sys.exit(0)]; [create_dirs.py] and [create_test_dirs.py] end by
    running off the end of the module.  All three report status 0. *)
Theorem C7_success_endings `{OsModule}
    (v : variant) (B : string) (L : list string) (t : FS) :
  succeeded (run (main v B L) t) = true →
  ending (run (main v B L) t)
    = match v with
      | CreateStructure => Exited 0
      | CreateDirs | CreateTestDirs => FellThrough
      end ∧
  exit_status (ending (run (main v B L) t)) = 0.
Proof.
  intros [[t1 out] Hloop]%succeeded_loop.
  rewrite (run_main_ok _ _ _ _ _ _ Hloop). simpl. by destruct v.
Qed.

Lemma C7_witness :
  succeeded (run (@main (Nt.os Nt.shell) CreateDirs "C:\proj" ["src\a"; "src\b"])
               Nt.fresh) = true ∧
  ending (run (@main (Nt.os Nt.shell) CreateDirs "C:\proj" ["src\a"; "src\b"])
            Nt.fresh) = FellThrough.
Proof.
  assert (Hok : succeeded (run (@main (Nt.os Nt.shell) CreateDirs "C:\proj"
                                  ["src\a"; "src\b"]) Nt.fresh) = true)
    by (vm_compute; reflexivity).
  split; [exact Hok|].
  exact (proj1 (@C7_success_endings (Nt.os Nt.shell) CreateDirs "C:\proj"
                  ["src\a"; "src\b"] Nt.fresh Hok)).
Defined.

(** ** Telling the lines apart *)

Lemma created_line_not_error `{OsModule} B d : is_error_line (created_line B d) = false.
Proof. reflexivity. Qed.

Lemma summary_not_error v : is_error_line (summary v) = false.
Proof. by destruct v. Qed.

Lemma summary_not_created `{OsModule} v B (L : list string) :
  summary v ∉ map (created_line B) L.
Proof.
  intros (d & Heq & _)%list_elem_of_fmap. destruct v; discriminate Heq.
Qed.

Lemma summary_not_report `{OsModule} v e : summary v ∉ failure_report v e.
Proof.
  destruct v; simpl; try apply not_elem_of_nil.
  intros Hin%list_elem_of_singleton. discriminate Hin.
Qed.

(** C8.  A run of [create_structure.py] ends in exactly one of two ways.
    Either it prints the summary line last, prints no [Error:] line and
    exits with status 0; or it prints [Error: <message>] last, for an
    exception [e] that is an [Exception], never prints the summary line
    and exits with status 1.  The [SystemExit] of [sys.exit(0)] is not an
    [Exception], so the handler leaves it alone. *)
Theorem C8_create_structure_either_or `{OsModule}
    (B : string) (L : list string) (t : FS) :
  let res := run (create_structure_main B L) t in
  let ok_line := newline +:+ "Directory structure created successfully!" in
  ((ending res = Exited 0 ∧
    last (output res) = Some ok_line ∧
    Forall (λ s, is_error_line s = false) (output res))
   ∨
   (ending res = Exited 1 ∧
    (∃ e, is_Exception e = true ∧
          last (output res) = Some ("Error: " +:+ strerror e)) ∧
    ok_line ∉ output res)) ∧
  Exited 0 ≠ Exited 1 ∧
  is_Exception (SystemExit 0) = false.
Proof.
  simpl. split; [|done].
  change (create_structure_main B L) with (main CreateStructure B L).
  destruct (create_loop B L (mkWorld t [])) as [[e|[]] [t1 out]] eqn:Hloop.
  - right. rewrite (run_main_failed _ _ _ _ _ _ _ Hloop). simpl.
    destruct (create_loop_post _ _ _ _ _ Hloop) as (_ & _ & _ & Hos).
    split_and!; [done| |].
    + exists e. split; [by destruct e|]. by rewrite last_snoc.
    + destruct (create_loop_cases B L (mkWorld t []))
        as [[t2 Hok]|(i & d & e' & t_i & t2 & _ & _ & _ & Hres)];
        rewrite Hloop in *; [done|]. inversion Hres; subst.
      intros [Hin|Hin]%elem_of_app.
      * by apply (summary_not_created CreateStructure) in Hin.
      * by apply (summary_not_report CreateStructure e') in Hin.
  - left. rewrite (run_main_ok _ _ _ _ _ _ Hloop). simpl.
    split_and!; [done|by rewrite last_snoc|].
    destruct (create_loop_cases B L (mkWorld t []))
      as [[t2 Hok]|(i & d & e' & t_i & t2 & _ & _ & _ & Hres)];
      rewrite Hloop in *; [|done]. inversion Hok; subst.
    apply Forall_app. split; [|by repeat constructor].
    apply Forall_fmap, Forall_forall. intros d _. apply created_line_not_error.
Qed.

(** C9.  A failing run stops at the first entry whose [makedirs] call
    raises, at some index [i]: the [i] entries before it were handled in
    order and their progress lines are all the progress lines printed;
    the final tree is the one the failing call left; the summary line is
    not printed; and nothing depends on the entries after index [i]:
    with any other list after the failing entry the run is the same. *)
Theorem C9_stops_at_first_failure `{OsModule}
    (v : variant) (B : string) (L : list string) (t : FS) :
  succeeded (run (main v B L) t) = false →
  let res := run (main v B L) t in
  ∃ i d e t_i,
    L !! i = Some d ∧
    create_loop B (take i L) (mkWorld t [])
      = (inr tt, mkWorld t_i (map (created_line B) (take i L))) ∧
    makedirs (target B d) true t_i = (inl e, final_fs res) ∧
    output res
      = map (created_line B) (take i L)
        ++ match v with
           | CreateStructure => ["Error: " +:+ strerror e]
           | CreateDirs | CreateTestDirs => []
           end ∧
    (summary v ∉ output res) ∧
    (∀ post, run (main v B (take i L ++ d :: post)) t = res).
Proof.
  intros Hfail. simpl.
  destruct (create_loop_cases B L (mkWorld t []))
    as [[t1 Hok]|(i & d & e & t_i & t1 & Hi & Hpre & Hmk & Hres)]; simpl in *.
  { rewrite (run_main_ok _ _ _ _ _ _ Hok) in Hfail. unfold succeeded in Hfail.
    simpl in Hfail. by rewrite success_ending_status in Hfail. }
  rewrite (run_main_failed _ _ _ _ _ _ _ Hres). simpl.
  exists i, d, e, t_i. split_and!; try done.
  - intros [Hin|Hin]%elem_of_app.
    + by apply summary_not_created in Hin.
    + by apply summary_not_report in Hin.
  - intros post. apply run_main_failed.
    rewrite create_loop_app, Hpre, create_loop_cons. simpl. by rewrite Hmk.
Qed.

Lemma C9_witness :
  succeeded (run (@main (Nt.os Nt.shell) CreateDirs "C:\proj" ["b"; "a"; "c"])
               Nt.blocked) = false ∧
  ∃ i d e t_i,
    ["b"; "a"; "c"] !! i = Some d ∧
    @create_loop (Nt.os Nt.shell) "C:\proj" (take i ["b"; "a"; "c"])
        (mkWorld Nt.blocked [])
      = (inr tt, mkWorld t_i (map (@created_line (Nt.os Nt.shell) "C:\proj")
                                 (take i ["b"; "a"; "c"]))) ∧
    makedirs (@target (Nt.os Nt.shell) "C:\proj" d) true t_i
      = (inl e, final_fs (run (@main (Nt.os Nt.shell) CreateDirs "C:\proj"
                                 ["b"; "a"; "c"]) Nt.blocked)).
Proof.
  assert (Hfail : succeeded (run (@main (Nt.os Nt.shell) CreateDirs "C:\proj"
                                    ["b"; "a"; "c"]) Nt.blocked) = false)
    by (vm_compute; reflexivity).
  split; [exact Hfail|].
  destruct (@C9_stops_at_first_failure (Nt.os Nt.shell) CreateDirs "C:\proj"
              ["b"; "a"; "c"] Nt.blocked Hfail)
    as (i & d & e & t_i & H1 & H2 & H3 & _).
  exists i, d, e, t_i. split; [exact H1|]. split; [exact H2|exact H3].
Defined.

(** * Further properties of the scripts *)

(** ** How the tree grows *)

Lemma grows_refl (t : FS) : grows t t.
Proof. split; [done|]. intros q n Hq Hq'. congruence. Qed.

Lemma grows_trans (t t1 t2 : FS) : grows t t1 → grows t1 t2 → grows t t2.
Proof.
  intros [Hsub1 Hnew1] [Hsub2 Hnew2]. split; [by etrans|].
  intros q n Hq Hq2. destruct (t1 !! q) as [n1|] eqn:Hq1.
  - pose proof (lookup_weaken _ _ _ _ Hq1 Hsub2) as Hq2'.
    assert (n = n1) as -> by congruence.
    destruct (Hnew1 _ _ Hq Hq1) as (-> & x & h & -> & Hh).
    split; [done|]. exists x, h. split; [done|]. by eapply lookup_weaken.
  - by apply Hnew2.
Qed.

Lemma grows_insert (x : string) (h : path) (t : FS) :
  t !! h = Some (Dir true) → t !! (x :: h) = None →
  grows t (<[x :: h := Dir true]> t).
Proof.
  intros Hh Hfree. split; [by apply insert_subseteq|].
  intros q n Hq Hq'. destruct (decide (x :: h = q)) as [<-|Hne].
  - rewrite lookup_insert_eq in Hq'. inversion Hq'; subst. split; [done|].
    exists x, h. split; [done|].
    rewrite lookup_insert_ne; [done|]. intros Heq.
    apply (f_equal length) in Heq. simpl in Heq. lia.
  - rewrite lookup_insert_ne in Hq' by done. congruence.
Qed.

Lemma mkdir_exist_ok_grows name t : grows t (mkdir_exist_ok true name t).2.
Proof.
  destruct (mkdir_exist_ok_cases name t) as [x h -> Hh Hn | Hd | k Hd Hk]; simpl.
  - by apply grows_insert.
  - apply grows_refl.
  - apply grows_refl.
Qed.

Lemma makedirs_grows name : ∀ t, grows t (makedirs name true t).2.
Proof.
  induction name as [|x head IH]; intros t.
  - apply mkdir_exist_ok_grows.
  - rewrite makedirs_cons. destruct (exists_ head t).
    + apply mkdir_exist_ok_grows.
    + specialize (IH t). destruct (makedirs head true t) as [[e|[]] t1]; simpl in *.
      * destruct (is_FileExistsError e); [|done].
        eapply grows_trans; [exact IH|]. apply mkdir_exist_ok_grows.
      * eapply grows_trans; [exact IH|]. apply mkdir_exist_ok_grows.
Qed.

Lemma create_loop_grows `{OsModule} B L : ∀ w, grows (fs w) (fs (create_loop B L w).2).
Proof.
  induction L as [|d L IH]; intros w.
  - apply grows_refl.
  - rewrite create_loop_cons.
    pose proof (makedirs_grows (target B d) (fs w)) as Hg.
    destruct (makedirs (target B d) true (fs w)) as [[e|[]] t1]; simpl in *; [done|].
    eapply grows_trans; [exact Hg|].
    apply (IH (mkWorld t1 (stdout w ++ [created_line B d]))).
Qed.

(** ** When a call of [makedirs] returns *)

Lemma new_creatable (q : path) : ∀ (t t' : FS) n,
  grows t t' → t !! q = None → t' !! q = Some n → creatable q t = true.
Proof.
  induction q as [|x h IH]; intros t t' n Hg Hq Hq'.
  - destruct Hg as [_ Hnew]. by destruct (Hnew _ _ Hq Hq') as (_ & ? & ? & ? & _).
  - simpl. rewrite Hq.
    pose proof Hg as [Hsub Hnew].
    destruct (Hnew _ _ Hq Hq') as (_ & x' & h' & Heq & Hh'). inversion Heq; subst.
    destruct (t !! h') as [m|] eqn:Hh.
    + rewrite (lookup_weaken _ _ _ _ Hh Hsub) in Hh'. by inversion Hh'.
    + by eapply IH.
Qed.

Lemma creatable_grows (p : path) : ∀ (t t' : FS),
  grows t t' → creatable p t' = creatable p t.
Proof.
  induction p as [|x h IH]; intros t t' Hg; pose proof Hg as [Hsub Hnew].
  - simpl. unfold isdir. destruct (t !! []) as [n|] eqn:Hr.
    + by rewrite (lookup_weaken _ _ _ _ Hr Hsub).
    + destruct (t' !! []) as [n|] eqn:Hr'; [|done].
      by destruct (Hnew _ _ Hr Hr') as (_ & ? & ? & ? & _).
  - simpl. destruct (t !! (x :: h)) as [n|] eqn:Hp.
    { by rewrite (lookup_weaken _ _ _ _ Hp Hsub). }
    destruct (t' !! (x :: h)) as [n|] eqn:Hp'.
    { destruct (Hnew _ _ Hp Hp') as (-> & _).
      pose proof (new_creatable _ _ _ _ Hg Hp Hp') as Hc.
      simpl in Hc. by rewrite Hp in Hc. }
    destruct (t !! h) as [m|] eqn:Hh.
    { by rewrite (lookup_weaken _ _ _ _ Hh Hsub). }
    destruct (t' !! h) as [m|] eqn:Hh'.
    + destruct (Hnew _ _ Hh Hh') as (-> & _).
      symmetry. by eapply new_creatable.
    + by apply IH.
Qed.

(** On a well-formed tree [makedirs] returns exactly for the creatable
    names. *)
Lemma makedirs_creatable (p : path) : ∀ (t : FS),
  well_formed t →
  match makedirs p true t with
  | (inr _, _) => creatable p t = true
  | (inl _, _) => creatable p t = false
  end.
Proof.
  induction p as [|x h IH]; intros t Hwf.
  - simpl. unfold mkdir_exist_ok, try_except, mkdir, exists_, isdir.
    destruct (t !! []) as [[|wr]|] eqn:Hr; simpl; by rewrite ?Hr.
  - rewrite makedirs_cons. simpl.
    assert (Hlast : ∀ t1 : FS,
      t1 !! (x :: h) = t !! (x :: h) →
      (∃ m, t1 !! h = Some m ∧ (t !! h = Some m ∨ (t !! h = None ∧ m = Dir true ∧ creatable h t = true))) →
      match mkdir_exist_ok true (x :: h) t1 with
      | (inr _, _) =>
          match t !! (x :: h) with
          | Some (Dir _) => true
          | Some File => false
          | None => match t !! h with
                    | Some (Dir wr) => wr
                    | Some File => false
                    | None => creatable h t
                    end
          end = true
      | (inl _, _) =>
          match t !! (x :: h) with
          | Some (Dir _) => true
          | Some File => false
          | None => match t !! h with
                    | Some (Dir wr) => wr
                    | Some File => false
                    | None => creatable h t
                    end
          end = false
      end).
    { intros t1 Hsame (m & Hm & Hold).
      unfold mkdir_exist_ok, try_except, mkdir, exists_, isdir.
      rewrite Hm, Hsame.
      destruct (t !! (x :: h)) as [[|wr']|] eqn:Hp.
      - destruct m as [|wr]; simpl; by rewrite ?Hsame, ?Hp.
      - destruct m as [|wr]; simpl; rewrite ?Hsame, ?Hp; [|done].
        destruct Hold as [Hh|(_ & ? & _)]; [|done].
        pose proof (well_formed_cons _ _ _ _ Hwf Hp) as [? ?]%isdir_lookup.
        congruence.
      - destruct Hold as [Hh|(Hh & -> & Hc)]; rewrite Hh.
        + destruct m as [|[]]; simpl; by rewrite ?Hsame, ?Hp.
        + simpl. done. }
    destruct (exists_ h t) eqn:Eh.
    + apply Hlast; [done|]. unfold exists_ in Eh.
      destruct (t !! h) as [m|]; [|done]. exists m. auto.
    + apply exists_lookup in Eh.
      pose proof (makedirs_inv h t) as Hpost. specialize (IH t Hwf).
      pose proof (makedirs_grows h t) as Hg.
      destruct (makedirs h true t) as [[e|[]] t1]; simpl in *.
      * destruct Hpost as (_ & _ & _ & _ & _ & Hfe).
        destruct (is_FileExistsError e) eqn:Efe.
        { specialize (Hfe eq_refl). unfold exists_ in Hfe. by rewrite Eh in Hfe. }
        destruct (t !! (x :: h)) as [n|] eqn:Hp.
        { pose proof (well_formed_cons _ _ _ _ Hwf Hp) as [? ?]%isdir_lookup.
          congruence. }
        by rewrite Eh.
      * destruct Hpost as (Hsub & _ & Hnew & [[wr Hd]%isdir_lookup _]%andb_prop).
        apply Hlast; [by apply untouched_above|].
        exists (Dir wr). split; [done|]. right.
        destruct Hg as [_ Hnew']. by destruct (Hnew' _ _ Eh Hd) as (-> & _).
Qed.

(** ** When a run succeeds *)

Section Outcome.
Context {os : OsModule} (B : string).

Lemma create_loop_ok_creatable L : ∀ w w',
  well_formed (fs w) →
  create_loop B L w = (inr tt, w') →
  Forall (λ d, creatable (target B d) (fs w) = true) L.
Proof.
  induction L as [|d L IH]; intros w w' Hwf Hloop; [constructor|].
  rewrite create_loop_cons in Hloop.
  pose proof (makedirs_creatable (target B d) (fs w) Hwf) as Hc.
  pose proof (makedirs_inv (target B d) (fs w)) as Hpost.
  pose proof (makedirs_grows (target B d) (fs w)) as Hg.
  destruct (makedirs (target B d) true (fs w)) as [[e|[]] t1]; [done|].
  destruct Hpost as (_ & Hwf1 & _). simpl in *.
  constructor; [done|].
  eapply Forall_impl;
    [exact (IH (mkWorld t1 (stdout w ++ [created_line B d])) _ (Hwf1 Hwf) Hloop)|].
  simpl.
  intros d' Hd'. by rewrite <- (creatable_grows _ _ _ Hg).
Qed.

Lemma create_loop_first_uncreatable
    (L : list string) (t : FS) (i : nat) (d : string) (e : exn) (t_i t' : FS)
    (out : list string) :
  well_formed t →
  create_loop B (take i L) (mkWorld t []) = (inr tt, mkWorld t_i out) →
  makedirs (target B d) true t_i = (inl e, t') →
  creatable (target B d) t = false ∧
  Forall (λ d', creatable (target B d') t = true) (take i L).
Proof.
  intros Hwf Hpre Hmk. split.
  - destruct (create_loop_post _ _ _ _ _ Hpre) as (_ & Hwf_i & _). simpl in *.
    pose proof (makedirs_creatable (target B d) t_i (Hwf_i Hwf)) as Hc.
    rewrite Hmk in Hc.
    pose proof (create_loop_grows B (take i L) (mkWorld t [])) as Hg.
    rewrite Hpre in Hg. simpl in Hg.
    by rewrite <- (creatable_grows _ _ _ Hg).
  - exact (create_loop_ok_creatable _ (mkWorld t []) _ Hwf Hpre).
Qed.

Lemma run_final_fs v L t :
  final_fs (run (main v B L) t) = fs (create_loop B L (mkWorld t [])).2.
Proof.
  destruct (create_loop B L (mkWorld t [])) as [[e|[]] [t1 out]] eqn:Hloop.
  - by rewrite (run_main_failed _ _ _ _ _ _ _ Hloop).
  - by rewrite (run_main_ok _ _ _ _ _ _ Hloop).
Qed.

Lemma succeeded_creatable v L t :
  well_formed t →
  succeeded (run (main v B L) t) = true ↔
  Forall (λ d, creatable (target B d) t = true) L.
Proof.
  intros Hwf. rewrite succeeded_loop. split.
  - intros [w' Hloop].
    exact (create_loop_ok_creatable _ (mkWorld t []) _ Hwf Hloop).
  - intros Hall.
    destruct (create_loop_cases B L (mkWorld t []))
      as [[t1 Hok]|(i & d & e & t_i & t1 & Hi & Hpre & Hmk & Hres)]; [eauto|].
    destruct (create_loop_first_uncreatable _ _ _ _ _ _ _ _ Hwf Hpre Hmk) as [Hno _].
    rewrite Forall_forall in Hall.
    rewrite Hall in Hno; [done|]. by eapply list_elem_of_lookup_2.
Qed.

(** The tree a successful loop leaves, entry by entry. *)
Lemma success_lookup (L : list string) (t : FS) (o : list string) (w' : World)
    (q : path) :
  well_formed t →
  create_loop B L (mkWorld t o) = (inr tt, w') →
  fs w' !! q =
  match t !! q with
  | Some n => Some n
  | None => if decide (Exists (λ d, q `suffix_of` target B d) L)
            then Some (Dir true) else None
  end.
Proof.
  intros Hwf Hloop.
  destruct (create_loop_post _ _ _ _ _ Hloop) as (Hsub & Hwf' & Hnew & Hset).
  simpl in *. destruct (t !! q) as [n|] eqn:Hq.
  { by eapply lookup_weaken. }
  destruct (decide (Exists (λ d, q `suffix_of` target B d) L)) as [Hex|Hno].
  - apply Exists_exists in Hex as (d & Hd & Hsuf).
    rewrite Forall_forall in Hset.
    pose proof (Hset _ Hd) as [Hdir _]%andb_prop.
    pose proof (well_formed_ancestors _ _ _ (Hwf' Hwf) Hdir Hsuf)
      as [wr Hq']%isdir_lookup.
    destruct (Hnew _ _ Hq') as [?|[? _]]; congruence.
  - destruct (fs w' !! q) as [n|] eqn:Hq'; [|done].
    destruct (Hnew _ _ Hq') as [?|[_ (d & Hd & Hsuf)]]; [congruence|].
    exfalso. apply Hno, Exists_exists. eauto.
Qed.

End Outcome.

Lemma creatable_isdir (p : path) (t : FS) : isdir p t = true → creatable p t = true.
Proof.
  intros [wr Hp]%isdir_lookup. destruct p as [|x h]; simpl.
  - apply isdir_lookup. eauto.
  - by rewrite Hp.
Qed.

Lemma creatable_parent (x : string) (h : path) (t : FS) :
  well_formed t → creatable (x :: h) t = true → creatable h t = true.
Proof.
  intros Hwf Hc. simpl in Hc. destruct (t !! (x :: h)) as [[|wr]|] eqn:Hp; [done| |].
  - apply creatable_isdir. by eapply well_formed_cons.
  - destruct (t !! h) as [[|wr]|] eqn:Hh; [done| |done].
    apply creatable_isdir, isdir_lookup. eauto.
Qed.

Lemma creatable_suffix (p q : path) (t : FS) :
  well_formed t → q `suffix_of` p → creatable p t = true → creatable q t = true.
Proof.
  intros Hwf [k ->]. induction k as [|x k IH]; [done|].
  intros Hc. apply IH. by eapply creatable_parent.
Qed.


(** ** The statements *)

(** X1.  The initial tree can show that a run must fail.  On a
    well-formed tree, if the joined path of some element of the list is
    not creatable (walking up from it, the first entry that is there
    is a plain file, or is a directory that is not writable while
    something below it is missing, or nothing is there up to the root),
    then the run fails, whatever the other elements are.  Joined paths
    with a dotted name ([.] or [..]), which the model does not
    interpret, are left out. *)
Theorem uncreatable_entry_makes_the_run_fail `{OsModule}
    (v : variant) (B : string) (L : list string) (d : string) (t : FS) :
  well_formed t →
  d ∈ L →
  "." ∉ target B d →
  ".." ∉ target B d →
  creatable (target B d) t = false →
  succeeded (run (main v B L) t) = false ∧
  exit_status (ending (run (main v B L) t)) = 1 ∧
  summary v ∉ output (run (main v B L) t).
Proof.
  intros Hwf Hd _ _ Hno.
  assert (Hfail : succeeded (run (main v B L) t) = false).
  { destruct (succeeded (run (main v B L) t)) eqn:Hs; [|done].
    apply succeeded_creatable in Hs; [|done].
    rewrite Forall_forall in Hs. rewrite (Hs _ Hd) in Hno. done. }
  split; [done|].
  destruct (create_loop_cases B L (mkWorld t []))
    as [[t1 Hok]|(i & d_i & e & t_i & t1 & Hi & Hpre & Hmk & Hres)]; simpl in *.
  { rewrite (run_main_ok _ _ _ _ _ _ Hok) in Hfail. unfold succeeded in Hfail.
    simpl in Hfail. by rewrite success_ending_status in Hfail. }
  rewrite (run_main_failed _ _ _ _ _ _ _ Hres). simpl.
  split; [apply failure_ending_status|].
  intros [Hin|Hin]%elem_of_app.
  - by apply summary_not_created in Hin.
  - by apply summary_not_report in Hin.
Qed.

Lemma uncreatable_entry_makes_the_run_fail_witness :
  well_formed Nt.blocked ∧
  "a\x" ∈ ["b"; "a\x"; "c"] ∧
  ("." ∉ @target (Nt.os Nt.shell) "C:\proj" "a\x") ∧
  (".." ∉ @target (Nt.os Nt.shell) "C:\proj" "a\x") ∧
  creatable (@target (Nt.os Nt.shell) "C:\proj" "a\x") Nt.blocked = false ∧
  succeeded (run (@main (Nt.os Nt.shell) CreateStructure "C:\proj" ["b"; "a\x"; "c"])
               Nt.blocked) = false.
Proof.
  assert (Hwf : well_formed Nt.blocked)
    by (apply (bool_decide_unpack _); vm_compute; reflexivity).
  assert (Hin : "a\x" ∈ ["b"; "a\x"; "c"])
    by (apply (bool_decide_unpack _); vm_compute; reflexivity).
  assert (Hdot : "." ∉ @target (Nt.os Nt.shell) "C:\proj" "a\x")
    by (apply (bool_decide_unpack _); vm_compute; reflexivity).
  assert (Hdots : ".." ∉ @target (Nt.os Nt.shell) "C:\proj" "a\x")
    by (apply (bool_decide_unpack _); vm_compute; reflexivity).
  assert (Hno : creatable (@target (Nt.os Nt.shell) "C:\proj" "a\x") Nt.blocked
                = false)
    by (vm_compute; reflexivity).
  split; [exact Hwf|]. split; [exact Hin|]. split; [exact Hdot|].
  split; [exact Hdots|]. split; [exact Hno|].
  exact (proj1 (@uncreatable_entry_makes_the_run_fail (Nt.os Nt.shell) CreateStructure
                  "C:\proj" ["b"; "a\x"; "c"] "a\x" Nt.blocked
                  Hwf Hin Hdot Hdots Hno)).
Defined.

(** X3.  The order of the list matters to the order of the printed lines
    only: on a well-formed tree, a run on a permutation of the list
    succeeds exactly when the run on the list does, and when they succeed
    both leave the same tree and print the same lines up to order. *)
Theorem list_order_is_irrelevant `{OsModule}
    (v : variant) (B : string) (L L' : list string) (t : FS) :
  well_formed t →
  L ≡ₚ L' →
  succeeded (run (main v B L) t) = succeeded (run (main v B L') t) ∧
  (succeeded (run (main v B L) t) = false ∨
   (final_fs (run (main v B L) t) = final_fs (run (main v B L') t) ∧
    output (run (main v B L) t) ≡ₚ output (run (main v B L') t))).
Proof.
  intros Hwf Hperm.
  assert (Hsame : succeeded (run (main v B L) t) = succeeded (run (main v B L') t)).
  { apply eq_true_iff_eq. rewrite !succeeded_creatable by done.
    by rewrite Hperm. }
  split; [done|].
  destruct (succeeded (run (main v B L) t)) eqn:Hs; [right|by left].
  symmetry in Hsame.
  apply succeeded_loop in Hs as [w1 H1].
  apply succeeded_loop in Hsame as [w2 H2].
  destruct (create_loop_cases B L (mkWorld t []))
    as [[t1 Hok1]|(? & ? & ? & ? & ? & _ & _ & _ & Hres)]; [|congruence].
  destruct (create_loop_cases B L' (mkWorld t []))
    as [[t2 Hok2]|(? & ? & ? & ? & ? & _ & _ & _ & Hres)]; [|congruence].
  clear H1 H2. simpl in *.
  rewrite (run_main_ok _ _ _ _ _ _ Hok1), (run_main_ok _ _ _ _ _ _ Hok2). simpl.
  split.
  - apply map_eq. intros q.
    pose proof (success_lookup _ _ _ _ _ q Hwf Hok1) as E1.
    pose proof (success_lookup _ _ _ _ _ q Hwf Hok2) as E2.
    simpl in *. rewrite E1, E2.
    destruct (t !! q); [done|].
    destruct (decide (Exists _ L)) as [H3|H3], (decide (Exists _ L')) as [H4|H4];
      try done; exfalso.
    + apply Exists_exists in H3 as (d & Hd & ?). apply H4, Exists_exists.
      exists d. by rewrite <- Hperm.
    + apply Exists_exists in H4 as (d & Hd & ?). apply H3, Exists_exists.
      exists d. by rewrite Hperm.
  - by rewrite Hperm.
Qed.

Lemma list_order_is_irrelevant_witness :
  well_formed Nt.fresh ∧
  ["src\a"; "docs"] ≡ₚ ["docs"; "src\a"] ∧
  succeeded (run (@main (Nt.os Nt.shell) CreateDirs "C:\proj" ["src\a"; "docs"])
               Nt.fresh)
  = succeeded (run (@main (Nt.os Nt.shell) CreateDirs "C:\proj" ["docs"; "src\a"])
                 Nt.fresh).
Proof.
  assert (Hwf : well_formed Nt.fresh)
    by (apply (bool_decide_unpack _); vm_compute; reflexivity).
  assert (Hperm : ["src\a"; "docs"] ≡ₚ ["docs"; "src\a"])
    by (apply (bool_decide_unpack _); vm_compute; reflexivity).
  split; [exact Hwf|]. split; [exact Hperm|].
  exact (proj1 (@list_order_is_irrelevant (Nt.os Nt.shell) CreateDirs "C:\proj"
                  _ _ Nt.fresh Hwf Hperm)).
Defined.

(** X4.  Runs compose: when a run on [L1] succeeds, a run on [L2] from
    the tree it left ends as one run on [L1 ++ L2] does, with the same
    final tree, and the single run prints the progress lines of [L1]
    followed by what the second run prints.  The variant of the first
    run does not matter. *)
Theorem run_on_appended_lists `{OsModule}
    (v1 v : variant) (B : string) (L1 L2 : list string) (t : FS) :
  succeeded (run (main v1 B L1) t) = true →
  run (main v B (L1 ++ L2)) t
  = mkResult
      (final_fs (run (main v B L2) (final_fs (run (main v1 B L1) t))))
      (map (created_line B) L1
         ++ output (run (main v B L2) (final_fs (run (main v1 B L1) t))))
      (ending (run (main v B L2) (final_fs (run (main v1 B L1) t)))).
Proof.
  intros [w1 H1]%succeeded_loop.
  destruct (create_loop_cases B L1 (mkWorld t []))
    as [[t1 Hok1]|(? & ? & ? & ? & ? & _ & _ & _ & Hres)]; [|congruence].
  clear H1. simpl in *. rewrite (run_main_ok _ _ _ _ _ _ Hok1). simpl.
  destruct (create_loop B L2 (mkWorld t1 [])) as [[e|[]] [t2 o2]] eqn:H2.
  - rewrite (run_main_failed _ _ _ _ _ _ _ H2). simpl.
    rewrite app_assoc. apply run_main_failed.
    rewrite create_loop_app, Hok1. by apply create_loop_frame.
  - rewrite (run_main_ok _ _ _ _ _ _ H2). simpl.
    rewrite app_assoc. apply run_main_ok.
    rewrite create_loop_app, Hok1. by apply create_loop_frame.
Qed.

Lemma run_on_appended_lists_witness :
  succeeded (run (@main (Nt.os Nt.shell) CreateStructure "C:\proj" ["src\a"])
               Nt.fresh) = true ∧
  final_fs (run (@main (Nt.os Nt.shell) CreateTestDirs "C:\proj"
                   (["src\a"] ++ ["src\a\b"])) Nt.fresh)
  = final_fs (run (@main (Nt.os Nt.shell) CreateTestDirs "C:\proj" ["src\a\b"])
                (final_fs (run (@main (Nt.os Nt.shell) CreateStructure "C:\proj"
                                  ["src\a"]) Nt.fresh))).
Proof.
  assert (Hok : succeeded (run (@main (Nt.os Nt.shell) CreateStructure "C:\proj"
                                  ["src\a"]) Nt.fresh) = true)
    by (vm_compute; reflexivity).
  split; [exact Hok|].
  exact (f_equal final_fs
           (@run_on_appended_lists (Nt.os Nt.shell) CreateStructure CreateTestDirs
              "C:\proj" ["src\a"] ["src\a\b"] Nt.fresh Hok)).
Defined.

(** X5.  No run, successful or not, removes or changes an entry: the
    initial tree is contained in the final one.  Whatever a run adds is a
    writable directory, placed inside a writable directory, on the way to
    the joined path of an element of the list; a run never adds a plain
    file. *)
Theorem every_run_only_adds_directories `{OsModule}
    (v : variant) (B : string) (L : list string) (t : FS) :
  t ⊆ final_fs (run (main v B L) t) ∧
  ∀ q n, t !! q = None → final_fs (run (main v B L) t) !! q = Some n →
    n = Dir true ∧
    (∃ x h, q = x :: h ∧ final_fs (run (main v B L) t) !! h = Some (Dir true)) ∧
    (∃ d, d ∈ L ∧ q `suffix_of` target B d).
Proof.
  rewrite run_final_fs.
  pose proof (create_loop_grows B L (mkWorld t [])) as [Hsub Hnew].
  destruct (create_loop B L (mkWorld t [])) as [r w'] eqn:Hloop.
  destruct (create_loop_post _ _ _ _ _ Hloop) as (_ & _ & Hwhere & _).
  simpl in *. split; [done|]. intros q n Hq Hq'.
  destruct (Hnew _ _ Hq Hq') as [-> Hparent].
  destruct (Hwhere _ _ Hq') as [?|[_ Hd]]; [congruence|]. done.
Qed.

(** X6.  Well-formedness is kept by every run, failing ones included:
    if every entry of the initial tree lives in a directory, so does
    every entry of the final tree. *)
Theorem every_run_keeps_the_tree_well_formed `{OsModule}
    (v : variant) (B : string) (L : list string) (t : FS) :
  well_formed t → well_formed (final_fs (run (main v B L) t)).
Proof.
  intros Hwf. rewrite run_final_fs.
  destruct (create_loop B L (mkWorld t [])) as [r w'] eqn:Hloop.
  destruct (create_loop_post _ _ _ _ _ Hloop) as (_ & Hwf' & _). by apply Hwf'.
Qed.

Lemma every_run_keeps_the_tree_well_formed_witness :
  well_formed Nt.blocked ∧
  well_formed (final_fs (run (@main (Nt.os Nt.shell) CreateDirs "C:\proj"
                                ["src\b"; "a\x"; "c"]) Nt.blocked)).
Proof.
  assert (Hwf : well_formed Nt.blocked)
    by (apply (bool_decide_unpack _); vm_compute; reflexivity).
  split; [exact Hwf|].
  exact (@every_run_keeps_the_tree_well_formed (Nt.os Nt.shell) CreateDirs "C:\proj"
           ["src\b"; "a\x"; "c"] Nt.blocked Hwf).
Defined.

(** X7.  On the same base path, list and tree the three variants do the
    same to the file system and report the same exit status: 0 exactly
    when the loop completes, 1 exactly when it raises, with or without
    the handler.  What [create_dirs.py] prints is an initial part of what
    [create_structure.py] prints. *)
Theorem variants_agree_on_tree_and_status `{OsModule}
    (v1 v2 : variant) (B : string) (L : list string) (t : FS) :
  final_fs (run (main v1 B L) t) = final_fs (run (main v2 B L) t) ∧
  exit_status (ending (run (main v1 B L) t))
    = exit_status (ending (run (main v2 B L) t)) ∧
  (exit_status (ending (run (main v1 B L) t)) = 0 ↔
   ∃ w', create_loop B L (mkWorld t []) = (inr tt, w')) ∧
  (exit_status (ending (run (main v1 B L) t)) = 1 ↔
   ∃ e w', create_loop B L (mkWorld t []) = (inl e, w')) ∧
  (exit_status (ending (run (main v1 B L) t)) = 0 ∨
   exit_status (ending (run (main v1 B L) t)) = 1) ∧
  output (run (main CreateDirs B L) t)
    `prefix_of` output (run (main CreateStructure B L) t).
Proof.
  destruct (create_loop B L (mkWorld t [])) as [[e|[]] [t1 out]] eqn:Hloop.
  - rewrite !(run_main_failed _ _ _ _ _ _ _ Hloop). simpl.
    rewrite !failure_ending_status. split_and!; auto.
    + split; [done|]. by intros [? ?].
    + split; [eauto|done].
    + rewrite app_nil_r. by apply prefix_app_r.
  - rewrite !(run_main_ok _ _ _ _ _ _ Hloop). simpl.
    rewrite !success_ending_status. split_and!; auto.
    + split; [eauto|done].
    + split; [done|]. by intros (? & ? & ?).
Qed.

(** X8.  An element whose joined path is an ancestor of (or the same as)
    the joined path of another element of the list is redundant: on a
    well-formed tree the run with it succeeds exactly when the run without
    it does, and on success both leave the same tree. *)
Theorem ancestor_entries_are_redundant `{OsModule}
    (v : variant) (B : string) (L1 L2 : list string) (d d' : string) (t : FS) :
  well_formed t →
  d' ∈ L1 ++ L2 →
  target B d `suffix_of` target B d' →
  succeeded (run (main v B (L1 ++ d :: L2)) t)
    = succeeded (run (main v B (L1 ++ L2)) t) ∧
  (succeeded (run (main v B (L1 ++ d :: L2)) t) = false ∨
   final_fs (run (main v B (L1 ++ d :: L2)) t)
     = final_fs (run (main v B (L1 ++ L2)) t)).
Proof.
  intros Hwf Hd' Hsuf.
  assert (Hsame : succeeded (run (main v B (L1 ++ d :: L2)) t)
                  = succeeded (run (main v B (L1 ++ L2)) t)).
  { apply eq_true_iff_eq. rewrite !succeeded_creatable by done.
    rewrite !Forall_app, Forall_cons. split; [tauto|].
    intros [HL1 HL2]. split_and!; [done| |done].
    eapply creatable_suffix; [done..|].
    assert (Hall : Forall (λ d, creatable (target B d) t = true) (L1 ++ L2))
      by by apply Forall_app.
    rewrite Forall_forall in Hall. by apply Hall. }
  split; [done|].
  destruct (succeeded (run (main v B (L1 ++ d :: L2)) t)) eqn:Hs; [right|by left].
  symmetry in Hsame.
  apply succeeded_loop in Hs as [w1 H1].
  apply succeeded_loop in Hsame as [w2 H2].
  rewrite !run_final_fs, H1, H2. simpl.
  apply map_eq. intros q.
  rewrite (success_lookup _ _ _ _ _ q Hwf H1).
  rewrite (success_lookup _ _ _ _ _ q Hwf H2).
  destruct (t !! q); [done|].
  destruct (decide (Exists _ (L1 ++ d :: L2))) as [H3|H3],
           (decide (Exists _ (L1 ++ L2))) as [H4|H4]; try done; exfalso.
  - apply H4. apply Exists_app. apply Exists_app in H3 as [?|H3]; [by left|].
    apply Exists_cons in H3 as [Hq|?]; [|by right].
    apply Exists_app, Exists_exists. exists d'. split; [done|]. by etrans.
  - apply H3. apply Exists_app. apply Exists_app in H4 as [?|?]; [by left|].
    right. by apply Exists_cons_tl.
Qed.

Lemma ancestor_entries_are_redundant_witness :
  well_formed Nt.fresh ∧
  "src\a" ∈ [] ++ ["src\a"] ∧
  @target (Nt.os Nt.shell) "C:\proj" "src"
    `suffix_of` @target (Nt.os Nt.shell) "C:\proj" "src\a" ∧
  succeeded (run (@main (Nt.os Nt.shell) CreateDirs "C:\proj" ([] ++ "src" :: ["src\a"]))
               Nt.fresh)
  = succeeded (run (@main (Nt.os Nt.shell) CreateDirs "C:\proj" ([] ++ ["src\a"]))
                 Nt.fresh).
Proof.
  assert (Hwf : well_formed Nt.fresh)
    by (apply (bool_decide_unpack _); vm_compute; reflexivity).
  assert (Hin : "src\a" ∈ [] ++ ["src\a"])
    by (apply (bool_decide_unpack _); vm_compute; reflexivity).
  assert (Hsuf : @target (Nt.os Nt.shell) "C:\proj" "src"
                   `suffix_of` @target (Nt.os Nt.shell) "C:\proj" "src\a")
    by (apply (bool_decide_unpack _); vm_compute; reflexivity).
  split; [exact Hwf|]. split; [exact Hin|]. split; [exact Hsuf|].
  exact (proj1 (@ancestor_entries_are_redundant (Nt.os Nt.shell) CreateDirs "C:\proj"
                  [] ["src\a"] "src" "src\a" Nt.fresh Hwf Hin Hsuf)).
Defined.



(** X10.  [create_test_dirs.py] builds on [create_dirs.py] (or on
    [create_structure.py], which has the same list): run on the tree that
    a successful run of either left, whatever it adds is one of its own
    three directories, nothing above them. *)
Theorem test_dirs_after_dirs_adds_only_its_three
    (p : Process) (v : variant) (t : FS) (q : path) (n : node) :
  v ≠ CreateTestDirs →
  well_formed t →
  succeeded (run (@script (Nt.os p) v) t) = true →
  final_fs (run (@script (Nt.os p) v) t) !! q = None →
  final_fs (run (@script (Nt.os p) CreateTestDirs)
              (final_fs (run (@script (Nt.os p) v) t))) !! q = Some n →
  n = Dir true ∧ q ∈ map (@target (Nt.os p) base_path) test_directories.
Proof.
  intros Hv Hwf Hok Hq Hq'.
  assert (Hlist : shipped_list v = directories) by by destruct v.
  unfold script in *. rewrite Hlist in *. simpl shipped_list in *.
  apply succeeded_loop in Hok as [w1 H1].
  rewrite !run_final_fs in *. rewrite H1 in *. simpl in *.
  destruct (create_loop_post _ _ _ _ _ H1) as (_ & Hwf1 & _ & Hset).
  specialize (Hwf1 Hwf). simpl in *.
  assert (Happ : isdir (@target (Nt.os p) base_path "src\test\java\com\hackathon\app")
                   (fs w1) = true).
  { rewrite Forall_forall in Hset.
    assert (Hin : "src\test\java\com\hackathon\app" ∈ directories)
      by (apply (bool_decide_unpack _); vm_compute; reflexivity).
    by apply Hset in Hin as [? _]%andb_prop. }
  destruct (create_loop (os:=Nt.os p) base_path test_directories (mkWorld (fs w1) []))
    as [r w2] eqn:H2.
  destruct (create_loop_post _ _ _ _ _ H2) as (_ & _ & Hnew & _). simpl in *.
  destruct (Hnew _ _ Hq') as [?|[-> (d & Hd & Hsuf)]]; [congruence|].
  split; [done|].
  assert (Hcase : q ∈ map (@target (Nt.os p) base_path) test_directories ∨
                  q `suffix_of` @target (Nt.os p) base_path
                                  "src\test\java\com\hackathon\app").
  { unfold test_directories in Hd.
    repeat (apply elem_of_cons in Hd as [->|Hd]);
      [| | |by apply elem_of_nil in Hd];
      (destruct q as [|x q'];
       [right; apply suffix_nil
       |apply suffix_cons_inv in Hsuf as [Heq|Hs];
        [left; rewrite Heq; apply (bool_decide_unpack _); vm_compute; reflexivity
        |right; exact Hs]]). }
  destruct Hcase as [Hin|Hs]; [exact Hin|].
  pose proof (well_formed_ancestors _ _ _ Hwf1 Happ Hs) as [wr Hd']%isdir_lookup.
  congruence.
Qed.

Lemma test_dirs_after_dirs_adds_only_its_three_witness :
  CreateDirs ≠ CreateTestDirs ∧
  well_formed Nt.fresh ∧
  succeeded (run (@script (Nt.os Nt.shell) CreateDirs) Nt.fresh) = true ∧
  Dir true = Dir true ∧
  ["service"; "app"; "hackathon"; "com"; "java"; "test"; "src";
   "copilot-hackathon"; "anupa"; "Users"; "C:"]
    ∈ map (@target (Nt.os Nt.shell) base_path) test_directories.
Proof.
  assert (Hv : CreateDirs ≠ CreateTestDirs) by discriminate.
  assert (Hwf : well_formed Nt.fresh)
    by (apply (bool_decide_unpack _); vm_compute; reflexivity).
  assert (Hok : succeeded (run (@script (Nt.os Nt.shell) CreateDirs) Nt.fresh) = true)
    by (vm_compute; reflexivity).
  split; [exact Hv|]. split; [exact Hwf|]. split; [exact Hok|].
  apply (test_dirs_after_dirs_adds_only_its_three Nt.shell CreateDirs Nt.fresh
           ["service"; "app"; "hackathon"; "com"; "java"; "test"; "src";
            "copilot-hackathon"; "anupa"; "Users"; "C:"] (Dir true) Hv Hwf Hok).
  - vm_compute. reflexivity.
  - vm_compute. reflexivity.
Defined.
